(** * Channel: the novel normalizer, its lint pass and the punctuation
      converter

    A shallow embedding of [scripts/py/optimize_novel.py] (the text
    normalizer [optimize_novel], the read-only [lint_check] and their entry
    point [main]) and of [convert_punctuation.py] (module [Punct]).

    A Python [str] is a sequence of Unicode code points: it is modelled as a
    list of code points in [N].  The file system is a finite map from paths to
    files, and the functions that touch it return the new file system and
    what they printed. *)

From Stdlib Require Import NArith Lia.
From stdpp Require Import gmap strings list.

Local Open Scope N_scope.

(** ** Python strings *)

Abbreviation char := N (only parsing).
Abbreviation pystr := (list N) (only parsing).

Definition LF : char := 10.          (* '\n' *)
Definition CR : char := 13.          (* '\r' *)
Definition SPACE : char := 32.       (* ' ' *)
Definition BOM : char := 65279.      (* U+FEFF, the byte-order mark *)
Definition FW : char := 12288.       (* U+3000, the full-width space *)
Definition DI : char := 31532.       (* U+7B2C, the ordinal prefix of a heading *)
Definition ZHANG : char := 31456.    (* U+7AE0, "chapter" *)

(** [str.isspace] on one code point: the characters that [str.strip],
    [str.rstrip] and [str.lstrip] remove when called without argument. *)
Definition isspace (c : char) : bool :=
  ((9 <=? c) && (c <=? 13)) || ((28 <=? c) && (c <=? 32))
  || (c =? 133) || (c =? 160) || (c =? 5760)
  || ((8192 <=? c) && (c <=? 8202))
  || (c =? 8232) || (c =? 8233) || (c =? 8239) || (c =? 8287) || (c =? 12288).

(** Truth value of a string in a condition: non-empty. *)
Definition truthy (s : pystr) : bool :=
  match s with [] => false | _ :: _ => true end.

(** Strip from the left every character satisfying [p]. *)
Fixpoint lstrip_by (p : char -> bool) (s : pystr) : pystr :=
  match s with
  | [] => []
  | c :: r => if p c then lstrip_by p r else s
  end.

(** Strip from the right: the same scan, from the other end. *)
Definition rstrip_by (p : char -> bool) (s : pystr) : pystr :=
  rev (lstrip_by p (rev s)).

(** [s.rstrip()], [s.strip()] and [s.lstrip(chars)]. *)
Definition rstrip (s : pystr) : pystr := rstrip_by isspace s.
Definition strip (s : pystr) : pystr := rstrip_by isspace (lstrip_by isspace s).
Definition lstrip_chars (chars : pystr) (s : pystr) : pystr :=
  lstrip_by (fun c => existsb (N.eqb c) chars) s.

(** [s.replace(old, '')] for a one-character [old]: every occurrence goes. *)
Definition remove_char (old : char) (s : pystr) : pystr :=
  List.filter (fun c => negb (c =? old)) s.

(** [s.startswith(c)] for a one-character [c]. *)
Definition startswith (c : char) (s : pystr) : bool :=
  match s with [] => false | d :: _ => d =? c end.

(** [c in s]. *)
Definition contains (c : char) (s : pystr) : bool := existsb (N.eqb c) s.

(** [s.split('\n')]: the segments between line feeds; never an empty list. *)
Fixpoint split_lf (s : pystr) : list pystr :=
  match s with
  | [] => [[]]
  | c :: r =>
      if c =? LF then [] :: split_lf r
      else match split_lf r with
           | [] => [[c]]
           | h :: t => (c :: h) :: t
           end
  end.

(** ['\n'.join(lines)]. *)
Fixpoint join_lf (lines : list pystr) : pystr :=
  match lines with
  | [] => []
  | [x] => x
  | x :: r => x ++ LF :: join_lf r
  end.

(** [f.readlines()]: the lines with their line feed kept; a last line without
    line feed is kept when it is not empty. *)
Fixpoint readlines_from (cur : pystr) (s : pystr) : list pystr :=
  match s with
  | [] => match cur with [] => [] | _ => [rev cur] end
  | c :: r =>
      if c =? LF then rev (c :: cur) :: readlines_from [] r
      else readlines_from (c :: cur) r
  end.
Definition readlines (s : pystr) : list pystr := readlines_from [] s.

(** ** The chapter patterns

    Both patterns have the shape [^第[class]+章].  [re.match] anchors at the
    start; the class is repeated greedily with backtracking, so the pattern
    matches when some non-empty run of class characters after the first
    character is followed by the closing character. *)
Fixpoint class_plus_then (cls : char -> bool) (close : char) (seen : bool)
    (s : pystr) : bool :=
  match s with
  | [] => false
  | c :: r => (seen && (c =? close)) || (cls c && class_plus_then cls close true r)
  end.

Definition re_match_heading (cls : char -> bool) (s : pystr) : bool :=
  match s with
  | [] => false
  | c :: r => (c =? DI) && class_plus_then cls ZHANG false r
  end.

(** The CJK numerals listed in the first pattern. *)
Definition cjk_numerals : pystr :=
  [19968; 20108; 19977; 22235; 20116; 20845; 19971; 20843; 20061;
   21313; 30334; 21315; 19975].

(** ** Files

    A file holds bytes; what matters to the two functions is whether it can be
    opened and how its bytes decode.  [Decoded text] is a file whose bytes are
    valid UTF-8 for the code points [text] (a signature at the start is still
    there); [Undecodable] is a file whose bytes are not valid UTF-8. *)

Inductive payload :=
| Undecodable
| Decoded (text : pystr).

Record file := mkFile {
  readable : bool;
  writable : bool;
  data : payload
}.

Abbreviation filesystem := (gmap string file) (only parsing).

(** The exceptions [open] and [read] raise here. *)
Inductive exn :=
| FileNotFoundError
| PermissionError
| UnicodeDecodeError.

(** The codec [utf-8-sig] drops one byte-order mark at the start. *)
Definition utf_8_sig (text : pystr) : pystr :=
  match text with
  | [] => []
  | c :: r => if c =? BOM then r else text
  end.

(** Text mode with the default [newline=None]: on input, a carriage return
    with or without a line feed after it becomes one line feed. *)
Fixpoint universal_newlines (text : pystr) : pystr :=
  match text with
  | [] => []
  | c :: r =>
      if c =? CR then
        LF :: match r with
              | [] => []
              | d :: r' => if d =? LF then universal_newlines r'
                           else universal_newlines r
              end
      else c :: universal_newlines r
  end.

(** [with open(path, 'r', encoding='utf-8-sig') as f: f.read()]. *)
Definition read_text (fs : filesystem) (path : string) : exn + pystr :=
  match fs !! path with
  | None => inl FileNotFoundError
  | Some f =>
      if negb (readable f) then inl PermissionError
      else match data f with
           | Undecodable => inl UnicodeDecodeError
           | Decoded text => inr (universal_newlines (utf_8_sig text))
           end
  end.

(** [with open(path, 'w', encoding='utf-8') as f: f.write(text)], on a system
    whose line separator is the line feed: an existing file must be writable
    and is replaced, a missing one is created. *)
Definition write_text (fs : filesystem) (path : string) (text : pystr)
    : exn + filesystem :=
  match fs !! path with
  | None => inr (<[path := mkFile true true (Decoded text)]> fs)
  | Some f =>
      if writable f
      then inr (<[path := mkFile (readable f) true (Decoded text)]> fs)
      else inl PermissionError
  end.

(** ** The lint pass *)

Inductive issue_type :=
| ConsecutiveEmpty        (* the excess blank-run category *)
| TrailingSpace           (* the trailing-whitespace category *)
| BomChar.                (* the byte-order-mark category *)

Inductive issue_message :=
| FoundConsecutive (consecutive_empty : nat)
| TrailingSpaceFound
| BomFound.

(** One entry of [issues]: the keys ['line'], ['type'] and ['message']. *)
Record issue := mkIssue {
  issue_line : nat;
  issue_kind : issue_type;
  issue_text : issue_message
}.

Global Instance issue_type_eq_dec : EqDecision issue_type.
Proof. solve_decision. Defined.

(** The body of [for i, line in enumerate(lines, 1)].  The third check of the
    source ends in [pass]: it changes nothing and has no counterpart here. *)
Definition lint_body (i : nat) (line : pystr) (acc : nat * list issue)
    : nat * list issue :=
  let '(consecutive_empty, issues) := acc in
  let stripped := strip line in
  let '(consecutive_empty1, issues1) :=
    if negb (truthy stripped) then
      let n := S consecutive_empty in
      (n, if (2 <? n)%nat
          then issues ++ [mkIssue i ConsecutiveEmpty (FoundConsecutive n)]
          else issues)
    else (0%nat, issues) in
  let issues2 :=
    if bool_decide (rstrip line <> line)
    then issues1 ++ [mkIssue i TrailingSpace TrailingSpaceFound]
    else issues1 in
  let issues3 :=
    if contains BOM line
    then issues2 ++ [mkIssue i BomChar BomFound]
    else issues2 in
  (consecutive_empty1, issues3).

Fixpoint lint_loop (i : nat) (lines : list pystr) (acc : nat * list issue)
    : nat * list issue :=
  match lines with
  | [] => acc
  | line :: rest => lint_loop (S i) rest (lint_body i line acc)
  end.

(** The list [issues] at the end of the loop. *)
Definition lint_issues (lines : list pystr) : list issue :=
  snd (lint_loop 1 lines (0%nat, [])).

(** ** Statistics and loop state *)

Record stats := mkStats {
  total_lines : nat;
  empty_lines_removed : nat;
  chapters_found : nat;
  formatting_fixed : nat;
  trailing_spaces_removed : nat
}.

Definition incr_empty_lines_removed (s : stats) : stats :=
  mkStats (total_lines s) (S (empty_lines_removed s)) (chapters_found s)
          (formatting_fixed s) (trailing_spaces_removed s).
Definition incr_chapters_found (s : stats) : stats :=
  mkStats (total_lines s) (empty_lines_removed s) (S (chapters_found s))
          (formatting_fixed s) (trailing_spaces_removed s).
Definition incr_formatting_fixed (s : stats) : stats :=
  mkStats (total_lines s) (empty_lines_removed s) (chapters_found s)
          (S (formatting_fixed s)) (trailing_spaces_removed s).
Definition incr_trailing_spaces_removed (s : stats) : stats :=
  mkStats (total_lines s) (empty_lines_removed s) (chapters_found s)
          (formatting_fixed s) (S (trailing_spaces_removed s)).

(** The variables the main loop of [optimize_novel] updates. *)
Record loop_state := mkLoop {
  optimized_lines : list pystr;
  prev_empty : bool;
  st : stats
}.

(** What the functions print, one constructor per message. *)
Inductive printed :=
| ReadFailed (e : exn)
| WriteFailed (e : exn)
| Optimized (output_file : string) (s : stats) (optimized_count : nat)
| LintFound (count : nat) (shown : list issue) (hidden : option nat)
| LintPassed.

(** The first half of [lint_check(input_file)]: read the lines and collect
    [issues]. *)
Definition lint_scan (fs : filesystem) (input_file : string)
    : exn + list issue :=
  match read_text fs input_file with
  | inl e => inl e
  | inr content => inr (lint_issues (readlines content))
  end.

(** [lint_check(input_file)]: it returns nothing and leaves the file system
    alone; the result is what it prints. *)
Definition lint_check (fs : filesystem) (input_file : string) : list printed :=
  match lint_scan fs input_file with
  | inl e => [ReadFailed e]
  | inr issues =>
      match issues with
      | [] => [LintPassed]
      | _ :: _ =>
          [LintFound (length issues) (take 20 issues)
             (if (20 <? length issues)%nat
              then Some (length issues - 20)%nat else None)]
      end
  end.

Section Normalizer.

(** The character class [\d] of Python's [re] on [str] patterns: the Unicode
    decimal digits, a table of the interpreter's Unicode database, not of
    this repository.  It is a parameter of the development. *)
Variable unicode_Nd : char -> bool.

(** [chapter_patterns], in the order of the source. *)
Definition chapter_patterns : list (pystr -> bool) :=
  [ re_match_heading (fun c => contains c cjk_numerals || unicode_Nd c);
    re_match_heading unicode_Nd ].

(** [i + 1 < len(original_lines) and original_lines[i + 1].strip()]: [rest]
    holds the source lines after the current one. *)
Definition next_is_content (rest : list pystr) : bool :=
  match rest with
  | [] => false
  | nx :: _ => truthy (strip nx)
  end.

(** [optimized_lines and optimized_lines[-1].strip()]. *)
Definition last_is_content (out : list pystr) : bool :=
  match last out with
  | None => false
  | Some l => truthy (strip l)
  end.

(** The body of the branch taken when a pattern matches (lines 74 to 84). *)
Definition emit_heading (test_line : pystr) (rest : list pystr)
    (s : loop_state) : loop_state :=
  let stats1 := incr_chapters_found (st s) in
  let out1 :=
    if last_is_content (optimized_lines s)
    then optimized_lines s ++ [[]] else optimized_lines s in
  let out2 := out1 ++ [[FW; FW] ++ test_line] in
  let out3 := if next_is_content rest then out2 ++ [[]] else out2 in
  mkLoop out3 (prev_empty s) stats1.

(** [for pattern in chapter_patterns: ... break]: the first pattern that
    matches runs the heading branch once and leaves the loop.  The boolean is
    [is_chapter]. *)
Fixpoint for_patterns (pats : list (pystr -> bool)) (stripped : pystr)
    (rest : list pystr) (s : loop_state) : bool * loop_state :=
  match pats with
  | [] => (false, s)
  | pattern :: pats' =>
      let test_line := lstrip_chars [FW] stripped in
      if pattern test_line then (true, emit_heading test_line rest s)
      else for_patterns pats' stripped rest s
  end.

(** The paragraph branch (lines 86 to 98). *)
Definition emit_paragraph (stripped : pystr) (s : loop_state) : loop_state :=
  let content_part := lstrip_chars [FW] stripped in
  let normalized_line := [FW; FW] ++ content_part in
  let stats1 :=
    if bool_decide (stripped <> normalized_line)
    then incr_formatting_fixed (st s) else st s in
  mkLoop (optimized_lines s ++ [normalized_line]) (prev_empty s) stats1.

(** One iteration of the [while] loop on [line = original_lines[i]], with
    [rest = original_lines[i+1:]]. *)
Definition loop_body (s : loop_state) (line : pystr) (rest : list pystr)
    : loop_state :=
  let stripped := remove_char BOM (rstrip line) in
  let s1 :=
    if bool_decide (rstrip line <> line)
    then mkLoop (optimized_lines s) (prev_empty s)
                (incr_trailing_spaces_removed (st s))
    else s in
  if negb (truthy stripped) then
    if negb (prev_empty s1)
    then mkLoop (optimized_lines s1 ++ [[]]) true (st s1)
    else mkLoop (optimized_lines s1) (prev_empty s1)
                (incr_empty_lines_removed (st s1))
  else
    let s2 := mkLoop (optimized_lines s1) false (st s1) in
    let '(is_chapter, s3) := for_patterns chapter_patterns stripped rest s2 in
    if negb is_chapter then emit_paragraph stripped s3 else s3.

(** The [while i < len(original_lines)] loop: [i] only ever grows by one, so
    the loop is a recursion on the lines still to read. *)
Fixpoint main_loop (s : loop_state) (lines : list pystr) : loop_state :=
  match lines with
  | [] => s
  | line :: rest => main_loop (loop_body s line rest) rest
  end.

(** [while optimized_lines and not optimized_lines[-1].strip(): pop]: the
    scan runs on the reversed list, whose head is the last line. *)
Fixpoint pop_blank (rev_lines : list pystr) (removed : nat)
    : list pystr * nat :=
  match rev_lines with
  | [] => ([], removed)
  | l :: r =>
      if negb (truthy (strip l)) then pop_blank r (S removed)
      else (rev_lines, removed)
  end.

Definition trim_trailing (s : loop_state) : loop_state :=
  let '(r, n) := pop_blank (rev (optimized_lines s)) 0 in
  mkLoop (rev r) (prev_empty s)
    (mkStats (total_lines (st s)) (empty_lines_removed (st s) + n)
       (chapters_found (st s)) (formatting_fixed (st s))
       (trailing_spaces_removed (st s))).

Definition initial_state (original_lines : list pystr) : loop_state :=
  mkLoop [] false (mkStats (length original_lines) 0 0 0 0).

(** Lines 29 to 105: from [content] to the final [optimized_lines] and
    [stats]. *)
Definition normalize_loop (content : pystr) : loop_state :=
  let original_lines := split_lf content in
  main_loop (initial_state original_lines) original_lines.

Definition normalize (content : pystr) : loop_state :=
  trim_trailing (normalize_loop content).

(** The text handed to [f.write]. *)
Definition output_text (content : pystr) : pystr :=
  join_lf (optimized_lines (normalize content)).

(** Lines 23 and 24: a byte-order mark still at the start is dropped. *)
Definition drop_bom (content : pystr) : pystr :=
  if startswith BOM content then tail content else content.

(** [optimize_novel(input_file, output_file)]: the returned boolean, the file
    system afterwards and what was printed. *)
Definition optimize_novel (fs : filesystem) (input_file : string)
    (output_file : option string) : bool * filesystem * list printed :=
  let output_file := default input_file output_file in
  match read_text fs input_file with
  | inl e => (false, fs, [ReadFailed e])
  | inr content =>
      let s := normalize (drop_bom content) in
      match write_text fs output_file (join_lf (optimized_lines s)) with
      | inl e => (false, fs, [WriteFailed e])
      | inr fs' =>
          (true, fs',
           [Optimized output_file (st s) (length (optimized_lines s))])
      end
  end.

End Normalizer.

(** An instance of the digit table that knows the ASCII digits only; every
    decimal-digit table agrees with it on the ASCII range. *)
Definition ascii_digit (c : char) : bool := (48 <=? c) && (c <=? 57).

(** [is_heading t]: some pattern of [chapter_patterns] matches [t]. *)
Definition is_heading (unicode_Nd : char -> bool) (t : pystr) : bool :=
  existsb (fun pattern => pattern t) (chapter_patterns unicode_Nd).

(** A blank line in the sense of [line.strip()]: nothing but whitespace. *)
Definition is_blank (l : pystr) : bool := negb (truthy (strip l)).

(** Number of occurrences of a character. *)
Definition count_char (c : char) (s : pystr) : nat :=
  length (List.filter (fun d => d =? c) s).

(** ** The entry point *)

(** [shutil.copy2(src, dst)]: the bytes of [src] and its permission bits go
    to [dst]; [src] must be readable, and [dst] writable when it exists. *)
Definition copy2 (fs : filesystem) (src dst : string) : exn + filesystem :=
  match fs !! src with
  | None => inl FileNotFoundError
  | Some f =>
      if negb (readable f) then inl PermissionError
      else match fs !! dst with
           | None => inr (<[dst := f]> fs)
           | Some g =>
               if writable g then inr (<[dst := f]> fs)
               else inl PermissionError
           end
  end.

(** How [main] ends: it returns, or [sys.exit(code)] ends the process. *)
Inductive outcome :=
| Returned
| Exited (code : nat).

(** What [main] prints: its own lines, and the lines of the functions it
    calls. *)
Inductive console :=
| Usage
| FileMissing (input_file : string)
| Started (input_file : string)
| Rule
| BackupCreated (backup_file : string)
| BackupFailed (e : exn)
| Said (m : printed)
| Finished
| Failed.

(** [main()] with [sys.argv = argv]. *)
Definition main (unicode_Nd : char -> bool) (argv : list string)
    (fs : filesystem) : outcome * filesystem * list console :=
  match argv with
  | _ :: input_file :: _ =>
      match fs !! input_file with
      | None => (Exited 1, fs, [FileMissing input_file])
      | Some _ =>
          let backup_file := String.append input_file ".bak" in
          let '(fs1, backup_line) :=
            match copy2 fs input_file backup_file with
            | inr fs1 => (fs1, BackupCreated backup_file)
            | inl e => (fs, BackupFailed e)
            end in
          let '(ok, fs2, out) :=
            optimize_novel unicode_Nd fs1 input_file None in
          if ok
          then (Returned, fs2,
                [Started input_file; Rule; backup_line] ++ map Said out
                ++ [Rule] ++ map Said (lint_check fs2 input_file)
                ++ [Finished])
          else (Returned, fs2,
                [Started input_file; Rule; backup_line] ++ map Said out
                ++ [Failed])
      end
  | _ => (Exited 1, fs, [Usage])
  end.

(** * The punctuation converter

    A shallow embedding of [convert_punctuation.py], in a module of its own:
    it has a [stats] and a [main] too. *)

Module Punct.

(** [s.startswith(old)]. *)
Fixpoint starts_with (old s : pystr) : bool :=
  match old, s with
  | [], _ => true
  | _ :: _, [] => false
  | a :: old', b :: s' => (a =? b) && starts_with old' s'
  end.

(** [s.count(old)] for a non-empty [old]: the occurrences found from left to
    right, each search starting after the previous occurrence.  [skip] is the
    number of characters of the last occurrence still to pass. *)
Fixpoint count_from (skip : nat) (old s : pystr) : nat :=
  match s with
  | [] => 0%nat
  | _ :: r =>
      match skip with
      | S k => count_from k old r
      | O =>
          if starts_with old s
          then S (count_from (length old - 1) old r)
          else count_from 0 old r
      end
  end.
Definition count (old s : pystr) : nat := count_from 0 old s.

(** [s.replace(old, new)] for a non-empty [old]: the same occurrences, each
    replaced by [new]. *)
Fixpoint replace_from (skip : nat) (old new s : pystr) : pystr :=
  match s with
  | [] => []
  | c :: r =>
      match skip with
      | S k => replace_from k old new r
      | O =>
          if starts_with old s
          then new ++ replace_from (length old - 1) old new r
          else c :: replace_from 0 old new r
      end
  end.
Definition replace (old new s : pystr) : pystr := replace_from 0 old new s.

(** The key that the two lines meant for the single quotation marks make:
    between the two triple quotes the source holds the rest of the first line
    and the indentation of the second, a string of 37 characters. *)
Definition quote_lines_key : pystr :=
  [58; 32; 34; 39; 34; 44; 32; 32; 32; 32; 32; 32; 35; 32;
   20013; 25991; 24038; 21333; 24341; 21495; 32; 8594; 32;
   33521; 25991; 21333; 24341; 21495; 10; 32; 32; 32; 32; 32; 32; 32; 32].

(** [punctuation_map.items()], in the order of insertion.  The key of the two
    lines meant for the double quotation marks is the ASCII quotation mark in
    both, so the dictionary holds it once, mapped to itself. *)
Definition punctuation_map : list (pystr * pystr) :=
  [ ([65292], [44]);      (* full-width comma *)
    ([12290], [46]);      (* ideographic full stop *)
    ([65311], [63]);      (* full-width question mark *)
    ([65281], [33]);      (* full-width exclamation mark *)
    ([65306], [58]);      (* full-width colon *)
    ([65307], [59]);      (* full-width semicolon *)
    ([34], [34]);
    (quote_lines_key, [39]);
    ([65288], [40]);      (* full-width left parenthesis *)
    ([65289], [41]);      (* full-width right parenthesis *)
    ([12304], [91]);      (* left black lenticular bracket *)
    ([12305], [93]) ].    (* right black lenticular bracket *)

(** The patterns and keys of the four special cases. *)
Definition two_dashes : pystr := [8212; 8212].
Definition two_ellipses : pystr := [8230; 8230].
Definition left_title : pystr := [12298].
Definition right_title : pystr := [12299].

(** The dictionary [stats]; ['converted'] holds each key once, so it is the
    list of its items in the order of insertion. *)
Record stats := mkStats {
  total_chars : nat;
  converted : list (pystr * nat);
  total_converted : nat
}.

(** [if n > 0: replace, stats['converted'][old] = n,
    stats['total_converted'] += n], the shape of every conversion step. *)
Definition substitute (old new : pystr) (n : nat) (acc : pystr * stats)
    : pystr * stats :=
  if (0 <? n)%nat
  then (replace old new (fst acc),
        mkStats (total_chars (snd acc)) (converted (snd acc) ++ [(old, n)])
                (total_converted (snd acc) + n))
  else acc.

(** One iteration of the loop over [punctuation_map.items()]. *)
Definition map_step (acc : pystr * stats) (entry : pystr * pystr)
    : pystr * stats :=
  substitute (fst entry) (snd entry) (count (fst entry) (fst acc)) acc.

(** From [content] to [converted_content] and [stats].  The patterns of
    [re.findall] and [re.sub] are literal, so they find the occurrences
    [count] and [replace] find; both title-mark counts are taken before
    either replacement. *)
Definition convert_content (content : pystr) : pystr * stats :=
  let acc0 := (content, mkStats (length content) [] 0) in
  let acc1 := fold_left map_step punctuation_map acc0 in
  let acc2 := substitute two_dashes [45; 45] (count two_dashes (fst acc1)) acc1 in
  let acc3 :=
    substitute two_ellipses [46; 46; 46] (count two_ellipses (fst acc2)) acc2 in
  let book_title_left_count := count left_title (fst acc3) in
  let book_title_right_count := count right_title (fst acc3) in
  let acc4 := substitute left_title [60] book_title_left_count acc3 in
  substitute right_title [62] book_title_right_count acc4.

(** What [convert_punctuation] prints. *)
Inductive printed :=
| ReadFailed (e : exn)
| WriteFailed (e : exn)
| Converted (output_file : string) (s : stats).

(** [convert_punctuation(input_file, output_file)]. *)
Definition convert_punctuation (fs : filesystem) (input_file : string)
    (output_file : option string) : bool * filesystem * list printed :=
  let output_file := default input_file output_file in
  match read_text fs input_file with
  | inl e => (false, fs, [ReadFailed e])
  | inr content =>
      let '(converted_content, s) := convert_content (drop_bom content) in
      match write_text fs output_file converted_content with
      | inl e => (false, fs, [WriteFailed e])
      | inr fs' => (true, fs', [Converted output_file s])
      end
  end.

(** What [main] prints. *)
Inductive console :=
| Usage
| FileMissing (input_file : string)
| Started (input_file : string)
| Rule
| BackupCreated (backup_file : string)
| BackupFailed (e : exn)
| Said (m : printed)
| Finished
| Failed.

(** [main()] with [sys.argv = argv]. *)
Definition main (argv : list string) (fs : filesystem)
    : outcome * filesystem * list console :=
  match argv with
  | _ :: input_file :: _ =>
      match fs !! input_file with
      | None => (Exited 1, fs, [FileMissing input_file])
      | Some _ =>
          let backup_file := String.append input_file ".bak2" in
          let '(fs1, backup_line) :=
            match copy2 fs input_file backup_file with
            | inr fs1 => (fs1, BackupCreated backup_file)
            | inl e => (fs, BackupFailed e)
            end in
          let '(ok, fs2, out) := convert_punctuation fs1 input_file None in
          (Returned, fs2,
           [Started input_file; Rule; backup_line] ++ map Said out
           ++ [if ok then Finished else Failed])
      end
  | _ => (Exited 1, fs, [Usage])
  end.

(** The characters the converter is meant to remove: the keys of one
    character that are not mapped to themselves, and the two title marks. *)
Definition targets : pystr :=
  [65292; 12290; 65311; 65281; 65306; 65307; 65288; 65289; 12304; 12305;
   12298; 12299].

(** The first character of every key and pattern. *)
Definition triggers : pystr :=
  [65292; 12290; 65311; 65281; 65306; 65307; 34; 58; 65288; 65289; 12304;
   12305; 8212; 8230; 12298; 12299].

(** Every character of a key, of a pattern or of a replacement. *)
Definition touched : pystr :=
  concat (map fst punctuation_map) ++ concat (map snd punctuation_map)
  ++ two_dashes ++ [45; 45] ++ two_ellipses ++ [46; 46; 46]
  ++ left_title ++ [60] ++ right_title ++ [62].

End Punct.

(** * Vocabulary of the properties *)

(** A source line with text: some character that is neither whitespace nor
    the byte-order mark. *)
Definition has_text (l : pystr) : bool :=
  existsb (fun c => negb (isspace c) && negb (c =? BOM)) l.

(** A source line that the main loop takes for a heading. *)
Definition heading_source (Nd : char -> bool) (l : pystr) : bool :=
  is_heading Nd (lstrip_chars [FW] (remove_char BOM (rstrip l))).

(** The state after the trailing-whitespace count of line 48. *)
Definition after_count (line : pystr) (s : loop_state) : loop_state :=
  if bool_decide (rstrip line <> line)
  then mkLoop (optimized_lines s) (prev_empty s)
              (incr_trailing_spaces_removed (st s))
  else s.

(** The line both the heading branch and the paragraph branch append for the
    source line [line]. *)
Definition emitted (line : pystr) : pystr :=
  FW :: FW :: lstrip_chars [FW] (remove_char BOM (rstrip line)).

(** A line made of full-width spaces only. *)
Definition fullwidth_only (l : pystr) : bool := forallb (N.eqb FW) l.

(** The input of the chapter-counting example, one source line per row, 23
    code points: a heading with a CJK numeral and a two-character title
    (U+7B2C U+4E00 U+7AE0, a space, U+5F00 U+59CB), a paragraph of two
    characters (U+5185 U+5BB9), two empty lines, a heading with the digit 2
    and a two-character title (U+7B2C, 2, U+7AE0, a space, U+7EE7 U+7EED), a
    paragraph of four characters (U+66F4 U+591A U+5185 U+5BB9); five line
    feeds, none at the end. *)
Definition sample_input : pystr :=
  [31532; 19968; 31456; 32; 24320; 22987; 10;
   20869; 23481; 10;
   10;
   10;
   31532; 50; 31456; 32; 32487; 32493; 10;
   26356; 22810; 20869; 23481].

(** An output line is a heading when the normalizer's own test says so. *)
Definition heading_line (Nd : char -> bool) (l : pystr) : bool :=
  is_heading Nd (lstrip_chars [FW] l).

(** Number of empty lines at the front of a list of lines. *)
Fixpoint leading_empty (ls : list pystr) : nat :=
  match ls with
  | [] :: r => S (leading_empty r)
  | _ => 0%nat
  end.

(** The empty lines immediately before and immediately after line [i]. *)
Definition blanks_before (out : list pystr) (i : nat) : nat :=
  leading_empty (rev (take i out)).
Definition blanks_after (out : list pystr) (i : nat) : nat :=
  leading_empty (drop (S i) out).

(** The property as the specification words it: one empty line on each side
    of every heading. *)
Definition headings_framed (Nd : char -> bool) (out : list pystr) : Prop :=
  forall i l, out !! i = Some l -> heading_line Nd l = true ->
    blanks_before out i = 1%nat /\ blanks_after out i = 1%nat.

(** The issues carrying line number [k], and the issues of one category. *)
Definition issues_at (k : nat) (issues : list issue) : list issue :=
  List.filter (fun x => (issue_line x =? k)%nat) issues.
Definition of_kind (kind : issue_type) (issues : list issue) : list issue :=
  List.filter (fun x => bool_decide (issue_kind x = kind)) issues.

(** What one line adds to [issues], and the counter after it. *)
Definition line_issues (i : nat) (line : pystr) (consecutive_empty : nat)
    : list issue :=
  snd (lint_body i line (consecutive_empty, [])).
Definition next_count (line : pystr) (consecutive_empty : nat) : nat :=
  if is_blank line then S consecutive_empty else 0%nat.

(** The counter after a sequence of lines. *)
Fixpoint count_after (consecutive_empty : nat) (lines : list pystr) : nat :=
  match lines with
  | [] => consecutive_empty
  | l :: r => count_after (next_count l consecutive_empty) r
  end.

(** The byte-order-mark check as the specification words it: the lines are
    those of the file's own text, a mark at the very start included. *)
Definition lint_flags_every_bom_line : Prop :=
  forall (fs : gmap string file) (path : string) (f : file) (text : pystr)
         (k : nat) (line : pystr),
    fs !! path = Some f -> readable f = true -> data f = Decoded text ->
    readlines (universal_newlines text) !! k = Some line ->
    contains BOM line = true ->
    exists issues,
      lint_scan fs path = inr issues /\
      of_kind BomChar (issues_at (S k) issues) = [mkIssue (S k) BomChar BomFound].

(** Two adjacent output lines both empty, somewhere in the output. *)
Fixpoint has_adjacent_empty (out : list pystr) : bool :=
  match out with
  | [] => false
  | a :: r =>
      (negb (truthy a)
       && match r with [] => false | b :: _ => negb (truthy b) end)
      || has_adjacent_empty r
  end.

(** A line the normalizer leaves as it is: nothing to strip, no byte-order
    mark, the two-space prefix already in place, not blank, no line feed. *)
Definition fixed_line (l : pystr) : Prop :=
  rstrip l = l /\ ~ In BOM l /\ FW :: FW :: lstrip_chars [FW] l = l /\
  is_blank l = false /\ ~ In LF l.

(** An output line in normal form: empty, or left alone by the normalizer. *)
Definition good_line (l : pystr) : Prop := l = [] \/ fixed_line l.

(** What holds of two adjacent output lines. *)
Definition adjacent_ok (Nd : char -> bool) (a b : pystr) : Prop :=
  ~ (a = [] /\ b = []) /\
  (heading_line Nd a = true -> b = []) /\
  (heading_line Nd b = true -> a = []).

(** [R] holds of every two adjacent lines of [out]. *)
Fixpoint chain (R : pystr -> pystr -> Prop) (out : list pystr) : Prop :=
  match out with
  | [] => True
  | a :: r => match r with [] => True | b :: _ => R a b end /\ chain R r
  end.

(** The invariant of the main loop, with [rest] the source lines still to
    read. *)
Record loop_inv (Nd : char -> bool) (s : loop_state) (rest : list pystr)
    : Prop := mkInv {
  inv_good : Forall good_line (optimized_lines s);
  inv_chain : chain (adjacent_ok Nd) (optimized_lines s);
  inv_prev :
    prev_empty s = true -> last (optimized_lines s) = Some [];
  inv_empty_last :
    last (optimized_lines s) = Some [] -> prev_empty s = false ->
    next_is_content rest = true;
  inv_heading_last :
    forall h, last (optimized_lines s) = Some h ->
              heading_line Nd h = true -> next_is_content rest = false
}.

(** The file system after the backup step of [main], and the line that step
    prints. *)
Definition after_backup (fs : filesystem) (input_file : string) : filesystem :=
  match copy2 fs input_file (String.append input_file ".bak") with
  | inr fs1 => fs1
  | inl _ => fs
  end.
Definition backup_line (fs : filesystem) (input_file : string) : console :=
  match copy2 fs input_file (String.append input_file ".bak") with
  | inr _ => BackupCreated (String.append input_file ".bak")
  | inl e => BackupFailed e
  end.

(** The line count as the specification words it: the reported
    [total_lines] is the number of line feeds of the file's own text plus
    one. *)
Definition total_lines_counts_raw_line_feeds (Nd : char -> bool) : Prop :=
  forall (fs fs' : gmap string file) (input_file : string)
         (output_file : option string) (f : file) (text : pystr)
         (reported : string) (s : stats) (n : nat),
    fs !! input_file = Some f -> data f = Decoded text ->
    optimize_novel Nd fs input_file output_file =
      (true, fs', [Optimized reported s n]) ->
    total_lines s = (count_char LF text + 1)%nat.

(** * Properties *)

(** ** Stripping *)

Lemma lstrip_by_decompose p s :
  exists pre, s = pre ++ lstrip_by p s /\ forallb p pre = true.
Proof.
  induction s as [|c r IH]; simpl.
  - exists []. auto.
  - destruct (p c) eqn:Hc.
    + destruct IH as [pre [E F]]. exists (c :: pre). simpl.
      rewrite Hc, F. split; [congruence | reflexivity].
    + exists []. auto.
Qed.

Lemma lstrip_by_head p s c r : lstrip_by p s = c :: r -> p c = false.
Proof.
  induction s as [|d t IH]; simpl; [discriminate|].
  destruct (p d) eqn:Hd; [exact IH|].
  intros E. injection E as -> _. exact Hd.
Qed.

Lemma lstrip_by_all p s : forallb p s = true -> lstrip_by p s = [].
Proof.
  induction s as [|c r IH]; simpl; [reflexivity|].
  destruct (p c); simpl; [exact IH | discriminate].
Qed.

Lemma lstrip_by_nil p s : lstrip_by p s = [] -> forallb p s = true.
Proof.
  induction s as [|c r IH]; simpl; [reflexivity|].
  destruct (p c); simpl; [exact IH | discriminate].
Qed.

Lemma lstrip_by_id p s : (forall c r, s = c :: r -> p c = false) -> lstrip_by p s = s.
Proof.
  destruct s as [|c r]; simpl; [reflexivity|].
  intros H. rewrite (H c r eq_refl). reflexivity.
Qed.

Lemma lstrip_by_In p s x : In x (lstrip_by p s) -> In x s.
Proof.
  destruct (lstrip_by_decompose p s) as [pre [E _]].
  intros H. rewrite E. apply in_or_app. right. exact H.
Qed.

Lemma rstrip_by_decompose p s :
  exists suf, s = rstrip_by p s ++ suf /\ forallb p suf = true.
Proof.
  unfold rstrip_by.
  destruct (lstrip_by_decompose p (rev s)) as [pre [E F]].
  exists (rev pre). split.
  - rewrite <- rev_app_distr, <- E, rev_involutive. reflexivity.
  - rewrite forallb_forall in *. intros x Hx. apply F, in_rev. exact Hx.
Qed.

Lemma rstrip_by_last p s t c : rstrip_by p s = t ++ [c] -> p c = false.
Proof.
  unfold rstrip_by. intros E.
  apply (f_equal (@rev N)) in E.
  rewrite rev_involutive, rev_app_distr in E. simpl in E.
  exact (lstrip_by_head _ _ _ _ E).
Qed.

Lemma rstrip_by_all p s : forallb p s = true -> rstrip_by p s = [].
Proof.
  intros H. unfold rstrip_by. rewrite lstrip_by_all; [reflexivity|].
  rewrite forallb_forall in *. intros x Hx. apply H, in_rev. exact Hx.
Qed.

Lemma rstrip_by_nil p s : rstrip_by p s = [] -> forallb p s = true.
Proof.
  intros H. destruct (rstrip_by_decompose p s) as [suf [E F]].
  rewrite H in E. simpl in E. subst suf. exact F.
Qed.

Lemma rstrip_by_In p s x : In x (rstrip_by p s) -> In x s.
Proof.
  destruct (rstrip_by_decompose p s) as [suf [E _]].
  intros H. rewrite E. apply in_or_app. left. exact H.
Qed.

(** A string that does not end in a [p] character is left alone. *)
Lemma rstrip_by_id p s t c : s = t ++ [c] -> p c = false -> rstrip_by p s = s.
Proof.
  intros -> Hc. unfold rstrip_by. rewrite rev_app_distr. simpl.
  rewrite Hc. simpl. rewrite rev_involutive. reflexivity.
Qed.

Lemma rstrip_by_nil_id p : rstrip_by p [] = [].
Proof. reflexivity. Qed.

Lemma truthy_false (s : pystr) : truthy s = false <-> s = [].
Proof. destruct s; simpl; split; congruence. Qed.

Lemma truthy_true (s : pystr) : truthy s = true <-> s <> [].
Proof. destruct s; simpl; split; congruence. Qed.

(** [line.strip()] is empty exactly for a line of whitespace only. *)
Lemma is_blank_spec l : is_blank l = forallb isspace l.
Proof.
  unfold is_blank, strip.
  destruct (forallb isspace l) eqn:F.
  - rewrite lstrip_by_all by exact F. reflexivity.
  - destruct (truthy _) eqn:T; [reflexivity|].
    apply truthy_false, rstrip_by_nil, lstrip_by_all in T.
    destruct (lstrip_by_decompose isspace (lstrip_by isspace l)) as [pre [E _]].
    rewrite T, app_nil_r in E.
    assert (F' : forallb isspace l = true).
    { destruct (lstrip_by_decompose isspace l) as [pre' [E' F']].
      rewrite E'. rewrite forallb_app, F'. simpl.
      apply lstrip_by_nil. exact T. }
    congruence.
Qed.

Lemma rstrip_blank l : is_blank l = true -> rstrip l = [].
Proof. rewrite is_blank_spec. apply rstrip_by_all. Qed.

Lemma rstrip_nil_blank l : rstrip l = [] -> is_blank l = true.
Proof. rewrite is_blank_spec. apply rstrip_by_nil. Qed.

Lemma remove_char_In c s x : In x (remove_char c s) -> In x s /\ x <> c.
Proof.
  unfold remove_char. rewrite filter_In. intros [H1 H2]. split; [exact H1|].
  apply negb_true_iff, N.eqb_neq in H2. exact H2.
Qed.

Lemma remove_char_id c s : ~ In c s -> remove_char c s = s.
Proof.
  unfold remove_char. induction s as [|d r IH]; simpl; [reflexivity|].
  intros H. destruct (d =? c) eqn:E.
  - apply N.eqb_eq in E. subst. exfalso. apply H. left. reflexivity.
  - simpl. rewrite IH; [reflexivity|]. intros H'. apply H. right. exact H'.
Qed.

(** ** Splitting and joining *)

Lemma split_lf_length s : length (split_lf s) = S (count_char LF s).
Proof.
  unfold count_char. induction s as [|c r IH]; simpl; [reflexivity|].
  destruct (c =? LF) eqn:E; simpl.
  - rewrite IH. reflexivity.
  - destruct (split_lf r); simpl in *; [discriminate | exact IH].
Qed.

Lemma split_lf_no_lf s : Forall (fun l => ~ In LF l) (split_lf s).
Proof.
  induction s as [|c r IH]; simpl.
  - constructor; [intros [] | constructor].
  - destruct (c =? LF) eqn:E.
    + constructor; [intros [] | exact IH].
    + destruct (split_lf r) as [|h t]; [constructor; [|constructor]|].
      * intros [H|[]]. apply N.eqb_neq in E. congruence.
      * inversion IH as [|? ? Hh Ht]; subst. constructor; [|exact Ht].
        intros [H|H]; [apply N.eqb_neq in E; congruence | exact (Hh H)].
Qed.

Lemma split_lf_In s l x : In l (split_lf s) -> In x l -> In x s.
Proof.
  revert l. induction s as [|c r IH]; simpl; intros l Hl Hx.
  - destruct Hl as [<-|[]]. destruct Hx.
  - destruct (c =? LF) eqn:E.
    + destruct Hl as [<-|Hl]; [destruct Hx|]. right. exact (IH _ Hl Hx).
    + destruct (split_lf r) as [|h t] eqn:Hs.
      * destruct Hl as [<-|[]]. destruct Hx as [<-|[]]. left. reflexivity.
      * destruct Hl as [<-|Hl].
        -- destruct Hx as [<-|Hx]; [left; reflexivity|].
           right. apply (IH h); [left; reflexivity | exact Hx].
        -- right. apply (IH l); [right; exact Hl | exact Hx].
Qed.

Lemma join_lf_snoc_last ls (l : pystr) :
  l <> [] -> last (join_lf (ls ++ [l])) = last l.
Proof.
  intros Hl. induction ls as [|x r IH]; simpl; [reflexivity|].
  destruct (r ++ [l]) as [|y r'] eqn:E.
  - destruct r; discriminate.
  - rewrite last_app. change (LF :: join_lf (y :: r')) with ([LF] ++ join_lf (y :: r')).
    rewrite last_app, IH. destruct l as [|a l']; [congruence|].
    destruct (last (a :: l')) eqn:La; [reflexivity|].
    apply last_None in La. discriminate.
Qed.

(** ** The main loop *)

Section NormalizerFacts.

Variable Nd : char -> bool.

Lemma after_count_lines line s :
  optimized_lines (after_count line s) = optimized_lines s.
Proof. unfold after_count. destruct (bool_decide _); reflexivity. Qed.

Lemma after_count_prev line s :
  prev_empty (after_count line s) = prev_empty s.
Proof. unfold after_count. destruct (bool_decide _); reflexivity. Qed.

Lemma for_patterns_spec pats stripped rest s :
  for_patterns pats stripped rest s =
  if existsb (fun pattern => pattern (lstrip_chars [FW] stripped)) pats
  then (true, emit_heading (lstrip_chars [FW] stripped) rest s)
  else (false, s).
Proof.
  induction pats as [|p ps IH]; simpl; [reflexivity|].
  destruct (p (lstrip_chars [FW] stripped)); simpl; [reflexivity | exact IH].
Qed.

(** The three branches of one iteration. *)
Lemma loop_body_unfold s line rest :
  loop_body Nd s line rest =
  let stripped := remove_char BOM (rstrip line) in
  let s1 := after_count line s in
  if truthy stripped then
    let s2 := mkLoop (optimized_lines s1) false (st s1) in
    if is_heading Nd (lstrip_chars [FW] stripped)
    then emit_heading (lstrip_chars [FW] stripped) rest s2
    else emit_paragraph stripped s2
  else if prev_empty s1
       then mkLoop (optimized_lines s1) (prev_empty s1)
                   (incr_empty_lines_removed (st s1))
       else mkLoop (optimized_lines s1 ++ [[]]) true (st s1).
Proof.
  unfold loop_body. fold (after_count line s). cbv zeta.
  destruct (truthy (remove_char BOM (rstrip line))); cbn [negb].
  - rewrite for_patterns_spec. fold (is_heading Nd (lstrip_chars [FW] (remove_char BOM (rstrip line)))).
    destruct (is_heading Nd _); reflexivity.
  - destruct (prev_empty (after_count line s)); reflexivity.
Qed.

Lemma loop_body_total_lines s line rest :
  total_lines (st (loop_body Nd s line rest)) = total_lines (st s).
Proof.
  rewrite loop_body_unfold. cbv zeta.
  assert (H : total_lines (st (after_count line s)) = total_lines (st s)).
  { unfold after_count. destruct (bool_decide _); reflexivity. }
  destruct (truthy _).
  - destruct (is_heading Nd _); simpl; [exact H|].
    destruct (bool_decide _); simpl; exact H.
  - destruct (prev_empty _); simpl; exact H.
Qed.

Lemma main_loop_total_lines lines s :
  total_lines (st (main_loop Nd s lines)) = total_lines (st s).
Proof.
  revert s. induction lines as [|l r IH]; intros s; simpl; [reflexivity|].
  rewrite IH. apply loop_body_total_lines.
Qed.

Lemma trim_trailing_total_lines s :
  total_lines (st (trim_trailing s)) = total_lines (st s).
Proof.
  unfold trim_trailing. destruct (pop_blank _ _). reflexivity.
Qed.

(** What the final [while] loop removes: a run of blank lines at the end,
    and it stops in front of a line with content. *)
Lemma pop_blank_spec r n r' n' :
  pop_blank r n = (r', n') ->
  exists pre, r = pre ++ r' /\ Forall (fun l => is_blank l = true) pre /\
              n' = (n + length pre)%nat /\
              match r' with [] => True | h :: _ => is_blank h = false end.
Proof.
  revert n. induction r as [|l t IH]; intros n; simpl.
  - intros E. injection E as <- <-. exists []. simpl.
    repeat split; [constructor | lia].
  - fold (is_blank l). destruct (is_blank l) eqn:B.
    + intros E. destruct (IH _ E) as [pre [E1 [F [En Hh]]]].
      exists (l :: pre). simpl. repeat split.
      * congruence.
      * constructor; assumption.
      * lia.
      * exact Hh.
    + intros E. injection E as <- <-. exists []. simpl.
      repeat split; [constructor | lia | exact B].
Qed.

Lemma trim_trailing_spec s :
  exists suf,
    optimized_lines s = optimized_lines (trim_trailing s) ++ suf /\
    Forall (fun l => is_blank l = true) suf /\
    empty_lines_removed (st (trim_trailing s)) =
      (empty_lines_removed (st s) + length suf)%nat /\
    match last (optimized_lines (trim_trailing s)) with
    | None => True
    | Some h => is_blank h = false
    end.
Proof.
  unfold trim_trailing.
  destruct (pop_blank (rev (optimized_lines s)) 0) as [r n] eqn:E.
  destruct (pop_blank_spec _ _ _ _ E) as [pre [E1 [F [En Hh]]]].
  exists (rev pre). simpl. repeat split.
  - rewrite <- rev_app_distr, <- E1, rev_involutive. reflexivity.
  - apply List.Forall_forall. intros x Hx. apply in_rev in Hx.
    rewrite List.Forall_forall in F. apply F. exact Hx.
  - rewrite length_rev. lia.
  - destruct r as [|h t]; simpl; [exact I|].
    rewrite last_snoc. exact Hh.
Qed.

(** The unfolding of the trimming loop as the source writes it: pop while
    the last line is blank. *)
Lemma trim_trailing_pop out pe stt l :
  trim_trailing (mkLoop (out ++ [l]) pe stt) =
  if is_blank l
  then trim_trailing (mkLoop out pe (incr_empty_lines_removed stt))
  else mkLoop (out ++ [l]) pe stt.
Proof.
  unfold trim_trailing. simpl. rewrite rev_app_distr. simpl.
  fold (is_blank l). destruct (is_blank l) eqn:B.
  - assert (G : forall r n, pop_blank r (S n) =
                 (fst (pop_blank r n), S (snd (pop_blank r n)))).
    { induction r as [|x r IH]; intros n; simpl; [reflexivity|].
      destruct (negb (truthy (strip x))); [apply IH | reflexivity]. }
    rewrite G. destruct (pop_blank (rev out) 0) as [r n]. simpl.
    destruct stt; simpl. f_equal. f_equal. lia.
  - simpl. rewrite rev_involutive. destruct stt; simpl.
    rewrite Nat.add_0_r. reflexivity.
Qed.

Lemma trim_trailing_nil pe stt :
  trim_trailing (mkLoop [] pe stt) = mkLoop [] pe stt.
Proof.
  unfold trim_trailing. simpl. destruct stt; simpl.
  rewrite Nat.add_0_r. reflexivity.
Qed.

End NormalizerFacts.

(** ** Where output lines come from *)

Section Origin.

Variable Nd : char -> bool.

Lemma loop_body_origin s line rest l :
  In l (optimized_lines (loop_body Nd s line rest)) ->
  In l (optimized_lines s) \/ l = [] \/ l = emitted line.
Proof.
  rewrite loop_body_unfold. cbv zeta.
  destruct (truthy _).
  - destruct (is_heading Nd _).
    + unfold emit_heading. cbn [optimized_lines].
      rewrite after_count_lines.
      destruct (next_is_content rest), (last_is_content (optimized_lines s));
        rewrite ?in_app_iff; simpl; unfold emitted; intuition congruence.
    + unfold emit_paragraph. cbn [optimized_lines].
      rewrite after_count_lines, in_app_iff. simpl. unfold emitted.
      intuition congruence.
  - destruct (prev_empty _); cbn [optimized_lines];
      rewrite after_count_lines, ?in_app_iff; simpl; intuition congruence.
Qed.

Lemma main_loop_origin lines s l :
  In l (optimized_lines (main_loop Nd s lines)) ->
  In l (optimized_lines s) \/ l = [] \/
  exists line, In line lines /\ l = emitted line.
Proof.
  revert s. induction lines as [|x r IH]; intros s; simpl; [tauto|].
  intros H. destruct (IH _ H) as [H1|[H1|[line [H1 H2]]]].
  - destruct (loop_body_origin _ _ _ _ H1) as [H3|[H3|H3]]; eauto 6.
  - tauto.
  - eauto 6.
Qed.

Lemma trim_trailing_In s l :
  In l (optimized_lines (trim_trailing s)) -> In l (optimized_lines s).
Proof.
  destruct (trim_trailing_spec s) as [suf [E _]].
  rewrite E, in_app_iff. tauto.
Qed.

(** Every line of the output is empty or the re-prefixed form of a source
    line. *)
Lemma normalize_origin content l :
  In l (optimized_lines (normalize Nd content)) ->
  l = [] \/ exists line, In line (split_lf content) /\ l = emitted line.
Proof.
  intros H. apply trim_trailing_In in H. unfold normalize_loop in H.
  destruct (main_loop_origin _ _ _ H) as [[]|H1]. exact H1.
Qed.

End Origin.

Lemma emitted_prefix line :
  exists rest, emitted line = FW :: FW :: rest /\ startswith FW rest = false.
Proof.
  unfold emitted. eexists. split; [reflexivity|].
  destruct (lstrip_chars [FW] _) as [|c r] eqn:E; [reflexivity|].
  unfold lstrip_chars in E. apply lstrip_by_head in E. simpl in E.
  rewrite orb_false_r in E. simpl. exact E.
Qed.

Lemma emitted_In line x : In x (emitted line) -> x = FW \/ In x line.
Proof.
  unfold emitted. simpl. intros [H|[H|H]]; [left; congruence ..|].
  right. unfold lstrip_chars in H.
  apply lstrip_by_In, remove_char_In in H. destruct H as [H _].
  apply rstrip_by_In in H. exact H.
Qed.

(** ** The claims on the normalizer's output *)

(** C5. Every line of the normalizer's output that is not empty and is not a
    chapter heading starts with exactly two full-width spaces: it is two
    full-width spaces followed by a remainder that does not begin with one. *)
Theorem paragraph_prefix_invariant (Nd : char -> bool) (content l : pystr) :
  In l (optimized_lines (normalize Nd content)) ->
  l <> [] ->
  is_heading Nd (lstrip_chars [FW] l) = false ->
  exists rest, l = FW :: FW :: rest /\ startswith FW rest = false.
Proof.
  intros Hin Hne _.
  destruct (normalize_origin Nd content l Hin) as [->|[line [_ ->]]].
  - congruence.
  - apply emitted_prefix.
Qed.

Lemma paragraph_prefix_invariant_witness :
  exists rest, [FW; FW; 20869; 23481] = FW :: FW :: rest /\
               startswith FW rest = false.
Proof.
  apply (paragraph_prefix_invariant ascii_digit sample_input
           [FW; FW; 20869; 23481]).
  - vm_compute. right. right. left. reflexivity.
  - discriminate.
  - reflexivity.
Defined.

(** [total_lines] is the number of line feeds of the text read from the file
    plus one, whatever the transformation does later. *)
Theorem total_lines_counts_segments (Nd : char -> bool) (content : pystr) :
  total_lines (st (normalize Nd (drop_bom content))) =
  (count_char LF content + 1)%nat.
Proof.
  unfold normalize, normalize_loop.
  rewrite trim_trailing_total_lines, main_loop_total_lines. simpl.
  rewrite split_lf_length. unfold drop_bom.
  destruct content as [|c r]; simpl; [reflexivity|].
  destruct (c =? BOM) eqn:E; simpl; [|lia].
  apply N.eqb_eq in E. subst c. unfold count_char. simpl. lia.
Qed.

(** The written text does not end in a line feed. *)
Lemma output_text_last (Nd : char -> bool) (content : pystr) :
  last (output_text Nd content) <> Some LF.
Proof.
  unfold output_text.
  destruct (trim_trailing_spec (normalize_loop Nd content)) as [_ [_ [_ [_ Hl]]]].
  fold (normalize Nd content) in Hl.
  destruct (optimized_lines (normalize Nd content)) as [|x r] eqn:E
    using rev_ind; [simpl; discriminate|].
  clear IHr. rewrite last_snoc in Hl.
  assert (Hx : x <> []).
  { intros ->. discriminate. }
  rewrite join_lf_snoc_last by exact Hx.
  intros HL.
  assert (Hin : In LF x).
  { destruct x as [|a x'] using rev_ind; [congruence|].
    rewrite last_snoc in HL. injection HL as ->.
    apply in_or_app. right. left. reflexivity. }
  assert (Hout : In x (optimized_lines (normalize Nd content))).
  { rewrite E. apply in_or_app. right. left. reflexivity. }
  destruct (normalize_origin Nd content x Hout) as [->|[line [Hline ->]]];
    [congruence|].
  apply emitted_In in Hin. destruct Hin as [Hin|Hin]; [discriminate|].
  pose proof (split_lf_no_lf content) as F.
  rewrite List.Forall_forall in F. exact (F _ Hline Hin).
Qed.

(** ** Blank lines *)

Lemma fullwidth_only_blank l : fullwidth_only l = true -> is_blank l = true.
Proof.
  unfold fullwidth_only. rewrite is_blank_spec, !forallb_forall.
  intros H x Hx. apply H, N.eqb_eq in Hx. subst x. reflexivity.
Qed.

Section BlankRuns.

Variable Nd : char -> bool.

(** A blank source line takes the branch of line 52: an empty line is
    appended unless the previous source line was blank too. *)
Lemma loop_body_blank s line rest :
  is_blank line = true ->
  optimized_lines (loop_body Nd s line rest) =
    optimized_lines s ++ (if prev_empty s then [] else [[]]) /\
  prev_empty (loop_body Nd s line rest) = true.
Proof.
  intros B. rewrite loop_body_unfold. cbv zeta.
  rewrite (rstrip_blank _ B). simpl.
  rewrite after_count_prev.
  destruct (prev_empty s) eqn:P; cbn [optimized_lines prev_empty];
    rewrite after_count_lines, ?after_count_prev, ?app_nil_r; auto.
Qed.

Lemma main_loop_blank_run run : forall s rest,
  Forall (fun l => is_blank l = true) run -> run <> [] ->
  exists s',
    main_loop Nd s (run ++ rest) = main_loop Nd s' rest /\
    optimized_lines s' =
      optimized_lines s ++ (if prev_empty s then [] else [[]]) /\
    prev_empty s' = true.
Proof.
  induction run as [|l run IH]; intros s rest F Hne; [congruence|].
  inversion F as [|? ? Hl Hrun]; subst. simpl.
  destruct (loop_body_blank s l (run ++ rest) Hl) as [Ho Hp].
  destruct run as [|l' run'].
  - simpl. eexists. split; [reflexivity|]. split; assumption.
  - destruct (IH (loop_body Nd s l ((l' :: run') ++ rest)) rest Hrun)
      as [s' [E [Ho' Hp']]]; [discriminate|].
    exists s'. split; [exact E|]. split; [|exact Hp'].
    rewrite Ho', Hp, Ho, app_nil_r. reflexivity.
Qed.

End BlankRuns.

(** C8. A source line made of full-width spaces only is classified as blank.
    A run of such lines and of ordinary blank lines makes the loop append one
    empty line when the line before the run was not blank, and nothing when
    it was; no line of the run is emitted as a paragraph. *)
Theorem fullwidth_only_line_is_blank (Nd : char -> bool) (s : loop_state)
    (run rest : list pystr) :
  Forall (fun l => fullwidth_only l = true \/ is_blank l = true) run ->
  run <> [] ->
  Forall (fun l => remove_char BOM (rstrip l) = []) run /\
  exists s',
    main_loop Nd s (run ++ rest) = main_loop Nd s' rest /\
    optimized_lines s' =
      optimized_lines s ++ (if prev_empty s then [] else [[]]) /\
    prev_empty s' = true.
Proof.
  intros F Hne.
  assert (F' : Forall (fun l => is_blank l = true) run).
  { eapply List.Forall_impl; [|exact F]. simpl.
    intros l [H|H]; [apply fullwidth_only_blank; exact H | exact H]. }
  split.
  - eapply List.Forall_impl; [|exact F']. simpl. intros l H.
    rewrite (rstrip_blank _ H). reflexivity.
  - apply main_loop_blank_run; assumption.
Qed.

Lemma fullwidth_only_line_is_blank_witness :
  optimized_lines
    (main_loop ascii_digit (initial_state [])
       [[FW; FW]; []; [FW]; [97]]) = [[]; [FW; FW; 97]].
Proof.
  destruct (fullwidth_only_line_is_blank ascii_digit (initial_state [])
              [[FW; FW]; []; [FW]] [[97]]) as [_ [s' [E [Ho Hp]]]].
  - repeat constructor.
  - discriminate.
  - simpl app in E. rewrite E. destruct s' as [out pe stt].
    simpl in Ho, Hp. subst out pe. reflexivity.
Defined.

(** A text of whitespace only normalizes to no line at all. *)
Lemma normalize_all_blank (Nd : char -> bool) (content : pystr) :
  forallb isspace content = true ->
  optimized_lines (normalize Nd content) = [].
Proof.
  intros H.
  assert (F : Forall (fun l => is_blank l = true) (split_lf content)).
  { apply List.Forall_forall. intros l Hl. rewrite is_blank_spec.
    apply forallb_forall. intros x Hx.
    rewrite forallb_forall in H. apply H. eapply split_lf_In; eauto. }
  assert (Hne : split_lf content <> []).
  { pose proof (split_lf_length content). destruct (split_lf content);
      simpl in *; congruence. }
  unfold normalize, normalize_loop.
  destruct (main_loop_blank_run Nd (split_lf content)
              (initial_state (split_lf content)) [] F Hne) as [s' [E [Ho Hp]]].
  rewrite app_nil_r in E. rewrite E. simpl main_loop.
  destruct s' as [out pe stt]. simpl in Ho. subst out.
  pose proof (trim_trailing_pop [] pe stt []) as T. simpl in T.
  rewrite T, trim_trailing_nil. reflexivity.
Qed.

(** C10. The text written to the output file never ends with a line feed,
    and a text of blank lines only (the empty text included) is written as
    the empty text. *)
Theorem output_never_ends_with_newline (Nd : char -> bool) (content : pystr) :
  last (output_text Nd content) <> Some LF /\
  (forallb isspace content = true -> output_text Nd content = []).
Proof.
  split; [apply output_text_last|].
  intros H. unfold output_text. rewrite normalize_all_blank by exact H.
  reflexivity.
Qed.

Lemma output_never_ends_with_newline_witness :
  last (output_text ascii_digit [97; LF; LF]) <> Some LF /\
  output_text ascii_digit [SPACE; LF; FW; LF] = [].
Proof.
  split.
  - apply (proj1 (output_never_ends_with_newline ascii_digit [97; LF; LF])).
  - apply (proj2 (output_never_ends_with_newline ascii_digit
                    [SPACE; LF; FW; LF])).
    reflexivity.
Defined.

(** C7. When reading the input file fails, [optimize_novel] prints the
    failure, returns [False] and leaves the file system as it was: nothing is
    written, at the output path or elsewhere. *)
Theorem read_failure_no_write (Nd : char -> bool) (fs : gmap string file)
    (input_file : string) (output_file : option string) (e : exn) :
  read_text fs input_file = inl e ->
  optimize_novel Nd fs input_file output_file = (false, fs, [ReadFailed e]).
Proof.
  intros H. unfold optimize_novel. rewrite H. reflexivity.
Qed.

Lemma read_failure_no_write_witness :
  let fs : gmap string file :=
    {[ "locked.txt"%string := mkFile false true (Decoded [97]) ]} in
  optimize_novel ascii_digit fs "locked.txt" (Some "out.txt"%string)
  = (false, fs, [ReadFailed PermissionError]).
Proof.
  intros fs.
  apply (read_failure_no_write ascii_digit fs "locked.txt"
           (Some "out.txt"%string) PermissionError).
  reflexivity.
Defined.

(** The three ways a read fails. *)
Example read_missing : read_text ∅ "novel.txt" = inl FileNotFoundError.
Proof. reflexivity. Qed.

Example read_undecodable :
  read_text {[ "novel.txt"%string := mkFile true true Undecodable ]} "novel.txt"
  = inl UnicodeDecodeError.
Proof. reflexivity. Qed.

(** ** The chapter-counting example *)

(** The example input has the 23 code points and the six lines of the
    string it stands for. *)
Example sample_input_lines :
  length sample_input = 23%nat /\
  split_lf sample_input =
    [ [31532; 19968; 31456; 32; 24320; 22987]; [20869; 23481]; []; [];
      [31532; 50; 31456; 32; 32487; 32493]; [26356; 22810; 20869; 23481] ].
Proof. split; reflexivity. Qed.

Lemma normalize_sample (Nd : char -> bool) :
  Nd 50 = true ->
  normalize Nd sample_input =
  mkLoop
    [ [FW; FW; 31532; 19968; 31456; 32; 24320; 22987]; [];
      [FW; FW; 20869; 23481]; [];
      [FW; FW; 31532; 50; 31456; 32; 32487; 32493]; [];
      [FW; FW; 26356; 22810; 20869; 23481] ]
    false (mkStats 6 1 2 2 0).
Proof.
  intros H. cbv. rewrite !H. reflexivity.
Qed.

(** C2, as amended. On the example input the normalizer finds exactly two
    chapters; every heading of the output is immediately followed by exactly
    one empty line; the second heading is immediately preceded by exactly one
    empty line, and the first heading is the first line of the output, with
    no line before it. *)
Theorem chapter_counting_sample (Nd : char -> bool) :
  Nd 50 = true ->
  chapters_found (st (normalize Nd sample_input)) = 2%nat /\
  optimized_lines (normalize Nd sample_input) !! 0%nat =
    Some [FW; FW; 31532; 19968; 31456; 32; 24320; 22987] /\
  heading_line Nd [FW; FW; 31532; 19968; 31456; 32; 24320; 22987] = true /\
  forall i l,
    optimized_lines (normalize Nd sample_input) !! i = Some l ->
    heading_line Nd l = true ->
    blanks_after (optimized_lines (normalize Nd sample_input)) i = 1%nat /\
    blanks_before (optimized_lines (normalize Nd sample_input)) i =
      match i with O => 0%nat | S _ => 1%nat end.
Proof.
  intros H. rewrite (normalize_sample Nd H). cbn [st chapters_found optimized_lines].
  split; [reflexivity|]. split; [reflexivity|]. split; [reflexivity|].
  intros i l Hi Hh.
  do 7 (destruct i as [|i]; [injection Hi as <-; try discriminate Hh;
                             split; reflexivity|]).
  discriminate Hi.
Qed.

Lemma chapter_counting_sample_witness :
  chapters_found (st (normalize ascii_digit sample_input)) = 2%nat.
Proof.
  apply (chapter_counting_sample ascii_digit). reflexivity.
Defined.

(** C2 as stated fails: the first heading of the output is its first line,
    so no empty line precedes it. *)
Lemma chapter_counting_sample_counterexample :
  ~ headings_framed ascii_digit
      (optimized_lines (normalize ascii_digit sample_input)).
Proof.
  intros Hf.
  destruct (Hf 0%nat [FW; FW; 31532; 19968; 31456; 32; 24320; 22987]) as [Hb _].
  - reflexivity.
  - reflexivity.
  - discriminate Hb.
Qed.

(** ** The lint pass *)

Lemma lint_body_spec i line ce issues :
  lint_body i line (ce, issues) =
  (next_count line ce, issues ++ line_issues i line ce).
Proof.
  unfold line_issues, lint_body, next_count, is_blank.
  destruct (negb (truthy (strip line))); simpl;
    destruct (2 <? S ce)%nat, (bool_decide (rstrip line <> line)),
      (contains BOM line); simpl; rewrite <- ?app_assoc, ?app_nil_r;
    reflexivity.
Qed.

Lemma line_issues_line i line ce x :
  In x (line_issues i line ce) -> issue_line x = i.
Proof.
  unfold line_issues, lint_body.
  destruct (negb (truthy (strip line))); simpl;
    destruct (2 <? S ce)%nat, (bool_decide (rstrip line <> line)),
      (contains BOM line); simpl; intuition (subst; reflexivity).
Qed.

Lemma line_issues_bom i line ce :
  of_kind BomChar (line_issues i line ce) =
  if contains BOM line then [mkIssue i BomChar BomFound] else [].
Proof.
  unfold line_issues, lint_body.
  destruct (negb (truthy (strip line))); simpl;
    destruct (2 <? S ce)%nat, (bool_decide (rstrip line <> line)),
      (contains BOM line); reflexivity.
Qed.

Lemma line_issues_consecutive i line ce :
  of_kind ConsecutiveEmpty (line_issues i line ce) =
  if is_blank line && (2 <? S ce)%nat
  then [mkIssue i ConsecutiveEmpty (FoundConsecutive (S ce))] else [].
Proof.
  unfold line_issues, lint_body, is_blank.
  destruct (negb (truthy (strip line))); simpl;
    destruct (2 <? S ce)%nat, (bool_decide (rstrip line <> line)),
      (contains BOM line); reflexivity.
Qed.

Lemma lint_loop_spec lines : forall i ce issues,
  lint_loop i lines (ce, issues) =
  (count_after ce lines, issues ++ snd (lint_loop i lines (ce, []))).
Proof.
  induction lines as [|l r IH]; intros i ce issues; cbn [lint_loop count_after].
  - rewrite app_nil_r. reflexivity.
  - rewrite !lint_body_spec. rewrite (IH _ _ (issues ++ _)).
    rewrite (IH _ _ ([] ++ _)). cbn [snd app]. rewrite app_assoc. reflexivity.
Qed.

Lemma lint_loop_cons i l r ce :
  snd (lint_loop i (l :: r) (ce, [])) =
  line_issues i l ce ++ snd (lint_loop (S i) r (next_count l ce, [])).
Proof.
  cbn [lint_loop]. rewrite lint_body_spec, lint_loop_spec. reflexivity.
Qed.

Lemma lint_loop_lines lines : forall i ce x,
  In x (snd (lint_loop i lines (ce, []))) ->
  (i <= issue_line x < i + length lines)%nat.
Proof.
  induction lines as [|l r IH]; intros i ce x.
  - simpl. intros [].
  - rewrite lint_loop_cons, in_app_iff. intros [H|H].
    + apply line_issues_line in H. simpl. lia.
    + apply IH in H. simpl. lia.
Qed.

Lemma filter_none {A} (f : A -> bool) (l : list A) :
  (forall x, In x l -> f x = false) -> List.filter f l = [].
Proof.
  induction l as [|a l IH]; simpl; intros H; [reflexivity|].
  rewrite (H a) by (left; reflexivity). apply IH. intros x Hx.
  apply H. right. exact Hx.
Qed.

Lemma filter_all {A} (f : A -> bool) (l : list A) :
  (forall x, In x l -> f x = true) -> List.filter f l = l.
Proof.
  induction l as [|a l IH]; simpl; intros H; [reflexivity|].
  rewrite (H a) by (left; reflexivity). f_equal. apply IH. intros x Hx.
  apply H. right. exact Hx.
Qed.

(** The issues carrying the number of a line are the ones that line added,
    with the counter as the lines before it left it. *)
Lemma lint_loop_issues_at lines : forall i ce j line,
  lines !! j = Some line ->
  issues_at (i + j) (snd (lint_loop i lines (ce, []))) =
  line_issues (i + j) line (count_after ce (take j lines)).
Proof.
  induction lines as [|l r IH]; intros i ce j line Hj; [discriminate|].
  rewrite lint_loop_cons. unfold issues_at. rewrite List.filter_app.
  fold (issues_at (i + j) (line_issues i l ce)).
  fold (issues_at (i + j) (snd (lint_loop (S i) r (next_count l ce, [])))).
  destruct j as [|j].
  - injection Hj as ->. rewrite Nat.add_0_r. simpl.
    unfold issues_at. rewrite filter_all, filter_none, app_nil_r; [reflexivity| |].
    + intros x Hx. apply lint_loop_lines in Hx. apply Nat.eqb_neq. lia.
    + intros x Hx. apply line_issues_line in Hx. apply Nat.eqb_eq. exact Hx.
  - simpl in Hj. simpl take. simpl count_after.
    replace (i + S j)%nat with (S i + j)%nat by lia.
    rewrite (IH (S i) _ j line Hj).
    unfold issues_at. rewrite filter_none; [reflexivity|].
    intros x Hx. apply line_issues_line in Hx. apply Nat.eqb_neq. lia.
Qed.

Lemma lint_issues_at lines k line :
  lines !! k = Some line ->
  issues_at (S k) (lint_issues lines) =
  line_issues (S k) line (count_after 0 (take k lines)).
Proof.
  intros H. unfold lint_issues.
  exact (lint_loop_issues_at lines 1 0%nat k line H).
Qed.

Lemma count_after_app ce a b :
  count_after ce (a ++ b) = count_after (count_after ce a) b.
Proof.
  revert ce. induction a as [|l r IH]; intros ce; simpl; [reflexivity|].
  apply IH.
Qed.

Lemma count_after_blank run : forall ce,
  Forall (fun l => is_blank l = true) run ->
  count_after ce run = (ce + length run)%nat.
Proof.
  induction run as [|l r IH]; intros ce F; simpl; [lia|].
  inversion F as [|? ? Hl Hr]; subst.
  unfold next_count. rewrite Hl, IH by exact Hr. lia.
Qed.

(** The counter is back to 0 after a line that is not blank, and still 0
    when no line was read. *)
Lemma count_after_reset pre :
  (forall l, last pre = Some l -> is_blank l = false) ->
  count_after 0 pre = 0%nat.
Proof.
  destruct pre as [|x pre'] using rev_ind; [reflexivity|].
  intros H. rewrite count_after_app. simpl. unfold next_count.
  rewrite (H x); [reflexivity|]. apply last_snoc.
Qed.

(** C3, as amended. The lint pass reads the file through the codec that drops
    one byte-order mark at the start of the file.  For every line of the text
    so decoded that contains the byte-order mark, the issues carrying that
    line's 1-based number hold exactly one issue of the BOM category. *)
Theorem lint_bom_detection (fs : gmap string file) (path : string) (f : file)
    (text : pystr) (k : nat) (line : pystr) :
  fs !! path = Some f -> readable f = true -> data f = Decoded text ->
  readlines (universal_newlines (utf_8_sig text)) !! k = Some line ->
  contains BOM line = true ->
  exists issues,
    lint_scan fs path = inr issues /\
    of_kind BomChar (issues_at (S k) issues) = [mkIssue (S k) BomChar BomFound].
Proof.
  intros Hf Hr Hd Hk Hb.
  unfold lint_scan, read_text. rewrite Hf, Hr, Hd. simpl.
  eexists. split; [reflexivity|].
  rewrite (lint_issues_at _ _ _ Hk), line_issues_bom, Hb. reflexivity.
Qed.

Lemma lint_bom_detection_witness :
  exists issues,
    lint_scan {[ "novel.txt"%string :=
                   mkFile true true (Decoded [BOM; BOM; 97; LF; 98; BOM]) ]}
              "novel.txt" = inr issues /\
    of_kind BomChar (issues_at 2 issues) = [mkIssue 2 BomChar BomFound].
Proof.
  apply (lint_bom_detection _ "novel.txt"
           (mkFile true true (Decoded [BOM; BOM; 97; LF; 98; BOM]))
           [BOM; BOM; 97; LF; 98; BOM] 1 [98; BOM]); reflexivity.
Defined.

(** C3 as stated fails: a file that starts with one byte-order mark has it in
    its first line, and the lint pass reports no issue for that line. *)
Lemma lint_bom_detection_counterexample : ~ lint_flags_every_bom_line.
Proof.
  intros H.
  destruct (H {[ "novel.txt"%string := mkFile true true (Decoded [BOM; 97]) ]}
              "novel.txt"%string (mkFile true true (Decoded [BOM; 97]))
              [BOM; 97] 0%nat [BOM; 97])
    as [issues [Hs Hi]]; try reflexivity.
  vm_compute in Hs. injection Hs as <-. discriminate Hi.
Qed.

(** A line that is not blank never carries an issue of the blank-run
    category. *)
Lemma lint_content_line_no_run_issue (lines : list pystr) (k : nat)
    (line : pystr) :
  lines !! k = Some line -> is_blank line = false ->
  of_kind ConsecutiveEmpty (issues_at (S k) (lint_issues lines)) = [].
Proof.
  intros Hk Hb.
  rewrite (lint_issues_at _ _ _ Hk), line_issues_consecutive, Hb. reflexivity.
Qed.

(** In a run of consecutive blank lines that starts the list or follows a
    line that is not blank, the [j]-th line of the run carries one issue of
    the blank-run category when [j] is past 2, and none otherwise. *)
Lemma lint_run_issues (pre run post : list pystr) (j : nat) :
  Forall (fun l => is_blank l = true) run ->
  (forall l, last pre = Some l -> is_blank l = false) ->
  (1 <= j <= length run)%nat ->
  of_kind ConsecutiveEmpty
    (issues_at (length pre + j) (lint_issues (pre ++ run ++ post))) =
  if (2 <? j)%nat
  then [mkIssue (length pre + j) ConsecutiveEmpty (FoundConsecutive j)]
  else [].
Proof.
  intros F Hpre Hj.
  destruct j as [|j]; [lia|].
  assert (Hlt : (j < length run)%nat) by lia.
  destruct (lookup_lt_is_Some_2 run j Hlt) as [line Hline].
  assert (Hk : (pre ++ run ++ post) !! (length pre + j)%nat = Some line).
  { rewrite lookup_app_r by lia.
    replace (length pre + j - length pre)%nat with j by lia.
    rewrite lookup_app_l by lia. exact Hline. }
  replace (length pre + S j)%nat with (S (length pre + j)) by lia.
  rewrite (lint_issues_at _ _ _ Hk), line_issues_consecutive.
  assert (Hb : is_blank line = true).
  { rewrite List.Forall_forall in F. apply F.
    apply list_elem_of_In. eapply list_elem_of_lookup_2. exact Hline. }
  rewrite Hb. simpl andb.
  assert (Hc : count_after 0 (take (length pre + j) (pre ++ run ++ post)) = j).
  { rewrite take_app_ge by lia.
    replace (length pre + j - length pre)%nat with j by lia.
    rewrite take_app_le by lia.
    rewrite count_after_app, (count_after_reset pre Hpre).
    rewrite count_after_blank.
    - rewrite length_take. lia.
    - apply Forall_take. exact F. }
  rewrite Hc. reflexivity.
Qed.

(** C6. For every input file: in a run of consecutive blank lines that
    starts the file or follows a line that is not blank (where the running
    count is 0), the [j]-th line of the run carries exactly one issue of the
    blank-run category when [j] is past 2, and none when [j] is 1 or 2.  So a
    run of at most two blank lines yields no such issue, and a run of three
    or more yields one for each line past the second. *)
Theorem lint_blank_run_detection (fs : gmap string file) (path : string)
    (content : pystr) (pre run post : list pystr) (j : nat) :
  read_text fs path = inr content ->
  readlines content = pre ++ run ++ post ->
  Forall (fun l => is_blank l = true) run ->
  (forall l, last pre = Some l -> is_blank l = false) ->
  (1 <= j <= length run)%nat ->
  count_after 0 pre = 0%nat /\
  exists issues,
    lint_scan fs path = inr issues /\
    of_kind ConsecutiveEmpty (issues_at (length pre + j) issues) =
    if (2 <? j)%nat
    then [mkIssue (length pre + j) ConsecutiveEmpty (FoundConsecutive j)]
    else [].
Proof.
  intros Hr Hl F Hpre Hj. split; [apply count_after_reset; exact Hpre|].
  unfold lint_scan. rewrite Hr. eexists. split; [reflexivity|].
  rewrite Hl. apply lint_run_issues; assumption.
Qed.

Lemma lint_blank_run_detection_witness :
  exists issues,
    lint_scan {[ "novel.txt"%string :=
                   mkFile true true
                     (Decoded [97; LF; LF; SPACE; LF; LF; FW; LF; 98]) ]}
              "novel.txt" = inr issues /\
    of_kind ConsecutiveEmpty (issues_at 4 issues) =
      [mkIssue 4 ConsecutiveEmpty (FoundConsecutive 3)].
Proof.
  apply (lint_blank_run_detection
           {[ "novel.txt"%string :=
                mkFile true true
                  (Decoded [97; LF; LF; SPACE; LF; LF; FW; LF; 98]) ]}
           "novel.txt" [97; LF; LF; SPACE; LF; LF; FW; LF; 98]
           [[97; LF]] [[LF]; [SPACE; LF]; [LF]; [FW; LF]] [[98]] 3).
  - reflexivity.
  - reflexivity.
  - repeat constructor.
  - intros l Hl. injection Hl as <-. reflexivity.
  - simpl. lia.
Defined.

(** ** Documents without a byte-order mark

    The invariant of the main loop on source lines that hold no byte-order
    mark: the shape of the lines emitted so far and of each pair of adjacent
    ones, and what the flag [prev_empty] and the look-ahead of the heading
    branch say about the last one. *)

Lemma chain_snoc R out x :
  chain R (out ++ [x]) <->
  chain R out /\ (forall a, last out = Some a -> R a x).
Proof.
  induction out as [|a r IH]; simpl.
  - split; [intros _; split; [exact I | discriminate] | auto].
  - destruct r as [|b r'].
    + simpl. split.
      * intros [H _]. split; [auto|]. intros a' E. injection E as <-. exact H.
      * intros [_ H]. split; [apply H; reflexivity | split; exact I].
    + change ((b :: r') ++ [x]) with (b :: (r' ++ [x])) in *.
      rewrite IH. change (last (a :: b :: r')) with (last (b :: r')). tauto.
Qed.

Lemma chain_app_l R a b : chain R (a ++ b) -> chain R a.
Proof.
  induction a as [|x r IH]; simpl; [auto|].
  intros [H1 H2]. split; [|exact (IH H2)].
  destruct r as [|y r']; [exact I | exact H1].
Qed.

Lemma heading_line_nil Nd : heading_line Nd [] = false.
Proof. reflexivity. Qed.

Lemma last_snoc_inv {A} (l : list A) (x y : A) :
  last (l ++ [x]) = Some y -> x = y.
Proof. rewrite last_snoc. congruence. Qed.

(** The line emitted for a source line with content and without byte-order
    mark or line feed is left alone by a second pass. *)
Lemma emitted_fixed line :
  ~ In BOM line -> ~ In LF line -> is_blank line = false ->
  remove_char BOM (rstrip line) = rstrip line /\
  truthy (rstrip line) = true /\
  lstrip_chars [FW] (emitted line) = lstrip_chars [FW] (rstrip line) /\
  fixed_line (emitted line).
Proof.
  intros Hbom Hlf Hb.
  assert (Hrs : remove_char BOM (rstrip line) = rstrip line).
  { apply remove_char_id. intros H. apply Hbom.
    apply rstrip_by_In in H. exact H. }
  assert (Hne : rstrip line <> []).
  { intros E. apply rstrip_nil_blank in E. congruence. }
  destruct (rstrip line) as [|c t] eqn:Er using rev_ind; [congruence|].
  clear IHt. pose proof (rstrip_by_last _ _ _ _ Er) as Hc.
  set (X := lstrip_chars [FW] (t ++ [c])).
  assert (HX : exists t', X = t' ++ [c]).
  { destruct (lstrip_by_decompose (fun c => existsb (N.eqb c) [FW]) (t ++ [c]))
      as [pre [E F]]. fold (lstrip_chars [FW] (t ++ [c])) in E. fold X in E.
    destruct X as [|c' t'] using rev_ind.
    - rewrite app_nil_r in E. subst pre. rewrite forallb_app in F.
      simpl in F. rewrite orb_false_r, andb_true_r in F.
      apply andb_true_iff in F. destruct F as [_ F].
      apply N.eqb_eq in F. subst c. discriminate.
    - exists t'. rewrite app_assoc in E. apply app_inj_tail in E.
      destruct E as [_ ->]. reflexivity. }
  destruct HX as [t' HX].
  assert (Hhead : lstrip_chars [FW] X = X).
  { apply lstrip_by_id. intros d r E. unfold X, lstrip_chars in E.
    exact (lstrip_by_head _ _ _ _ E). }
  assert (Hem : emitted line = FW :: FW :: X).
  { unfold emitted. rewrite Er, Hrs. reflexivity. }
  split; [exact Hrs|]. split; [destruct t; reflexivity|].
  rewrite Hem. split; [exact Hhead|].
  assert (Hin : forall x, In x (FW :: FW :: X) -> x = FW \/ In x line).
  { intros x Hx. apply emitted_In. rewrite Hem. exact Hx. }
  unfold fixed_line. repeat split.
  - rewrite HX. apply (rstrip_by_id isspace _ (FW :: FW :: t') c);
      [reflexivity | exact Hc].
  - intros H. destruct (Hin _ H) as [H'|H']; [discriminate | auto].
  - change (lstrip_chars [FW] (FW :: FW :: X)) with (lstrip_chars [FW] X).
    rewrite Hhead. reflexivity.
  - rewrite is_blank_spec, HX.
    change (FW :: FW :: t' ++ [c]) with ((FW :: FW :: t') ++ [c]).
    rewrite forallb_app. simpl. rewrite Hc, andb_false_r. reflexivity.
  - intros H. destruct (Hin _ H) as [H'|H']; [discriminate | auto].
Qed.

Lemma fixed_line_not_nil l : fixed_line l -> l <> [].
Proof. intros [_ [_ [_ [H _]]]] ->. discriminate. Qed.

Lemma good_line_blank l : good_line l -> is_blank l = true -> l = [].
Proof.
  intros [H|[_ [_ [_ [H _]]]]] B; [exact H | congruence].
Qed.

Section WithoutBom.

Variable Nd : char -> bool.

Lemma last_is_content_false out :
  Forall good_line out -> last_is_content out = false ->
  forall a, last out = Some a -> a = [].
Proof.
  intros F H a La. unfold last_is_content in H. rewrite La in H.
  apply good_line_blank.
  - rewrite List.Forall_forall in F. apply F.
    apply list_elem_of_In, last_Some_elem_of. exact La.
  - unfold is_blank. rewrite H. reflexivity.
Qed.

Lemma last_is_content_true out a :
  last_is_content out = true -> last out = Some a -> a <> [].
Proof.
  unfold last_is_content. intros H La. rewrite La in H.
  intros ->. discriminate.
Qed.

Lemma loop_inv_step s line rest :
  ~ In BOM line -> ~ In LF line ->
  loop_inv Nd s (line :: rest) ->
  loop_inv Nd (loop_body Nd s line rest) rest.
Proof.
  intros Hbom Hlf [Hg Hc Hp He Hh].
  rewrite loop_body_unfold. cbv zeta.
  destruct (is_blank line) eqn:B.
  - (* a blank source line *)
    rewrite (rstrip_blank _ B). simpl. rewrite after_count_prev.
    destruct (prev_empty s) eqn:P.
    + constructor; cbn [optimized_lines prev_empty];
        rewrite ?after_count_lines, ?after_count_prev.
      * exact Hg.
      * exact Hc.
      * intros _. apply Hp. reflexivity.
      * intros _ E. congruence.
      * intros h Lh Hd. rewrite (Hp eq_refl) in Lh. injection Lh as <-.
        rewrite heading_line_nil in Hd. discriminate.
    + constructor; cbn [optimized_lines prev_empty];
        rewrite ?after_count_lines.
      * apply Forall_app. split; [exact Hg|].
        constructor; [left; reflexivity | constructor].
      * apply chain_snoc. split; [exact Hc|]. intros a La.
        repeat split.
        -- intros [-> _]. specialize (He La eq_refl). simpl in He.
           unfold is_blank in B. rewrite He in B. discriminate.
        -- intros Hd. rewrite heading_line_nil in Hd. discriminate.
      * intros _. apply last_snoc.
      * intros _ E. discriminate.
      * intros h Lh Hd. apply last_snoc_inv in Lh. subst h.
        rewrite heading_line_nil in Hd. discriminate.
  - (* a source line with content *)
    destruct (emitted_fixed line Hbom Hlf B) as [Hrs [Ht [Hl Hf]]].
    rewrite Hrs, Ht.
    assert (Hnext : next_is_content (line :: rest) = true).
    { simpl. unfold is_blank in B. destruct (truthy (strip line));
        [reflexivity | discriminate]. }
    assert (Hhd : heading_line Nd (emitted line) =
                  is_heading Nd (lstrip_chars [FW] (rstrip line))).
    { unfold heading_line. rewrite Hl. reflexivity. }
    assert (Hem : [FW; FW] ++ lstrip_chars [FW] (rstrip line) = emitted line).
    { unfold emitted. rewrite Hrs. reflexivity. }
    pose proof (fixed_line_not_nil _ Hf) as Hne.
    destruct (is_heading Nd (lstrip_chars [FW] (rstrip line))) eqn:Hd.
    + (* the heading branch *)
      unfold emit_heading. cbn [optimized_lines prev_empty st].
      rewrite after_count_lines, Hem.
      set (out1 := if last_is_content (optimized_lines s)
                   then optimized_lines s ++ [[]] else optimized_lines s).
      assert (G1 : Forall good_line out1).
      { unfold out1. destruct (last_is_content _); [|exact Hg].
        apply Forall_app. split; [exact Hg|].
        constructor; [left; reflexivity | constructor]. }
      assert (L1 : forall a, last out1 = Some a -> a = []).
      { unfold out1. destruct (last_is_content _) eqn:Lc.
        - intros a La. apply last_snoc_inv in La. congruence.
        - apply last_is_content_false; assumption. }
      assert (C1 : chain (adjacent_ok Nd) out1).
      { unfold out1. destruct (last_is_content _) eqn:Lc; [|exact Hc].
        apply chain_snoc. split; [exact Hc|]. intros a La. repeat split.
        - intros [E _]. exact (last_is_content_true _ _ Lc La E).
        - intros Hda. rewrite heading_line_nil in Hda. discriminate. }
      assert (C2 : chain (adjacent_ok Nd) (out1 ++ [emitted line])).
      { apply chain_snoc. split; [exact C1|]. intros a La.
        rewrite (L1 _ La). repeat split.
        - intros [_ E]. exact (Hne E).
        - intros Hda. rewrite heading_line_nil in Hda. discriminate. }
      assert (G2 : Forall good_line (out1 ++ [emitted line])).
      { apply Forall_app. split; [exact G1|].
        constructor; [right; exact Hf | constructor]. }
      destruct (next_is_content rest) eqn:Nx; constructor;
        cbn [optimized_lines prev_empty].
      * apply Forall_app. split; [exact G2|].
        constructor; [left; reflexivity | constructor].
      * apply chain_snoc. split; [exact C2|]. intros a La.
        apply last_snoc_inv in La. subst a. repeat split.
        -- intros [E _]. exact (Hne E).
        -- intros Hda. rewrite heading_line_nil in Hda. discriminate.
      * discriminate.
      * intros _ _. exact Nx.
      * intros h Lh Hdh. apply last_snoc_inv in Lh. subst h.
        rewrite heading_line_nil in Hdh. discriminate.
      * exact G2.
      * exact C2.
      * discriminate.
      * intros La. apply last_snoc_inv in La. congruence.
      * intros h _ _. exact Nx.
    + (* the paragraph branch *)
      unfold emit_paragraph. cbn [optimized_lines prev_empty st].
      rewrite after_count_lines, Hem.
      constructor; cbn [optimized_lines prev_empty].
      * apply Forall_app. split; [exact Hg|].
        constructor; [right; exact Hf | constructor].
      * apply chain_snoc. split; [exact Hc|]. intros a La. repeat split.
        -- intros [_ E]. exact (Hne E).
        -- intros Hda. rewrite (Hh _ La Hda) in Hnext. discriminate.
        -- intros Hde. congruence.
      * discriminate.
      * intros La. apply last_snoc_inv in La. congruence.
      * intros h Lh Hdh. apply last_snoc_inv in Lh. subst h. congruence.
Qed.

Lemma loop_inv_main lines : forall s,
  Forall (fun l => ~ In BOM l /\ ~ In LF l) lines ->
  loop_inv Nd s lines -> loop_inv Nd (main_loop Nd s lines) [].
Proof.
  induction lines as [|l r IH]; intros s F Hi; simpl; [exact Hi|].
  inversion F as [|? ? [H1 H2] Hr]; subst.
  apply IH; [exact Hr|]. apply loop_inv_step; assumption.
Qed.

Lemma loop_inv_initial lines : loop_inv Nd (initial_state lines) lines.
Proof.
  constructor; simpl; try discriminate; constructor.
Qed.

Lemma split_lf_clean content :
  ~ In BOM content ->
  Forall (fun l => ~ In BOM l /\ ~ In LF l) (split_lf content).
Proof.
  intros H. apply List.Forall_forall. intros l Hl. split.
  - intros Hx. apply H. eapply split_lf_In; eauto.
  - pose proof (split_lf_no_lf content) as F.
    rewrite List.Forall_forall in F. exact (F _ Hl).
Qed.

(** The output of a document without byte-order mark: lines that a second
    pass leaves alone, well-formed neighbours, and a last line with
    content. *)
Lemma normalize_normal_form content :
  ~ In BOM content ->
  Forall good_line (optimized_lines (normalize Nd content)) /\
  chain (adjacent_ok Nd) (optimized_lines (normalize Nd content)) /\
  (forall h, last (optimized_lines (normalize Nd content)) = Some h ->
             fixed_line h).
Proof.
  intros H.
  pose proof (loop_inv_main _ _ (split_lf_clean _ H)
                (loop_inv_initial (split_lf content))) as [Hg Hc _ _ _].
  fold (normalize_loop Nd content) in Hg, Hc.
  destruct (trim_trailing_spec (normalize_loop Nd content))
    as [suf [E [_ [_ Hl]]]].
  fold (normalize Nd content) in E, Hl.
  rewrite E in Hg, Hc. apply Forall_app in Hg. destruct Hg as [Hg _].
  apply chain_app_l in Hc.
  split; [exact Hg|]. split; [exact Hc|].
  intros h Lh. rewrite Lh in Hl.
  rewrite List.Forall_forall in Hg.
  destruct (Hg h) as [->|Hf]; [|discriminate Hl|exact Hf].
  apply list_elem_of_In, last_Some_elem_of. exact Lh.
Qed.

Lemma chain_no_adjacent_empty out :
  chain (adjacent_ok Nd) out -> has_adjacent_empty out = false.
Proof.
  induction out as [|a r IH]; simpl; [reflexivity|].
  intros [H1 H2]. rewrite (IH H2), orb_false_r.
  destruct a as [|c a']; [|reflexivity].
  destruct r as [|b r']; [reflexivity|].
  destruct b as [|d b']; [|reflexivity].
  destruct H1 as [H1 _]. exfalso. apply H1. split; reflexivity.
Qed.

End WithoutBom.

(** X8. On a document without byte-order mark the output never has two
    adjacent empty lines. *)
Theorem no_consecutive_blank_without_bom (Nd : char -> bool)
    (content : pystr) :
  ~ In BOM content ->
  has_adjacent_empty (optimized_lines (normalize Nd content)) = false.
Proof.
  intros H. apply (chain_no_adjacent_empty Nd).
  apply (normalize_normal_form Nd content H).
Qed.

(** ** A second pass over a normalized document *)

Lemma split_lf_line x : ~ In LF x -> split_lf x = [x].
Proof.
  induction x as [|c r IH]; simpl; [reflexivity|].
  intros H. destruct (c =? LF) eqn:E.
  - apply N.eqb_eq in E. exfalso. apply H. left. congruence.
  - rewrite IH; [reflexivity|]. intros H'. apply H. right. exact H'.
Qed.

Lemma split_lf_app x s :
  ~ In LF x -> split_lf (x ++ LF :: s) = x :: split_lf s.
Proof.
  induction x as [|c r IH]; simpl; [reflexivity|].
  intros H. destruct (c =? LF) eqn:E.
  - apply N.eqb_eq in E. exfalso. apply H. left. congruence.
  - rewrite IH; [reflexivity|]. intros H'. apply H. right. exact H'.
Qed.

(** Splitting what was joined gives the lines back, when there is at least
    one line and no line holds a line feed. *)
Lemma split_join_lf out :
  out <> [] -> Forall (fun l => ~ In LF l) out -> split_lf (join_lf out) = out.
Proof.
  induction out as [|x r IH]; intros Hne F; [congruence|].
  inversion F as [|? ? Hx Hr]; subst.
  destruct r as [|y r'].
  - simpl. apply split_lf_line. exact Hx.
  - change (join_lf (x :: y :: r')) with (x ++ LF :: join_lf (y :: r')).
    rewrite split_lf_app by exact Hx. rewrite IH; [reflexivity | discriminate | exact Hr].
Qed.

Lemma good_line_no_lf l : good_line l -> ~ In LF l.
Proof.
  intros [->|[_ [_ [_ [_ H]]]]]; [intros [] | exact H].
Qed.

Section SecondPass.

Variable Nd : char -> bool.

Lemma after_count_fixed l s : rstrip l = l -> after_count l s = s.
Proof.
  intros H. unfold after_count. rewrite H.
  rewrite bool_decide_eq_false_2; [reflexivity|]. intros E. apply E. reflexivity.
Qed.

(** The main loop run on lines that are already in normal form appends them
    unchanged: it collapses nothing and fixes no prefix. *)
Lemma main_loop_normal_form rest : forall s,
  Forall good_line rest ->
  chain (adjacent_ok Nd) rest ->
  (forall a b, last (optimized_lines s) = Some a -> head rest = Some b ->
               adjacent_ok Nd a b) ->
  (prev_empty s = true -> last (optimized_lines s) = Some []) ->
  optimized_lines (main_loop Nd s rest) = optimized_lines s ++ rest /\
  empty_lines_removed (st (main_loop Nd s rest)) = empty_lines_removed (st s) /\
  formatting_fixed (st (main_loop Nd s rest)) = formatting_fixed (st s) /\
  trailing_spaces_removed (st (main_loop Nd s rest)) =
    trailing_spaces_removed (st s).
Proof.
  induction rest as [|l rest' IH]; intros s F C Hadj Hp.
  - simpl. rewrite app_nil_r. auto.
  - inversion F as [|? ? Hl Hr]; subst.
    assert (C' : chain (adjacent_ok Nd) rest') by (destruct C as [_ C']; exact C').
    assert (Hnx : heading_line Nd l = true -> next_is_content rest' = false).
    { intros Hd. destruct rest' as [|b r]; [reflexivity|].
      destruct C as [[_ [Hb _]] _]. rewrite (Hb Hd). reflexivity. }
    cbn [main_loop].
    assert (Step :
      optimized_lines (loop_body Nd s l rest') = optimized_lines s ++ [l] /\
      (prev_empty (loop_body Nd s l rest') = true -> l = []) /\
      empty_lines_removed (st (loop_body Nd s l rest')) =
        empty_lines_removed (st s) /\
      formatting_fixed (st (loop_body Nd s l rest')) =
        formatting_fixed (st s) /\
      trailing_spaces_removed (st (loop_body Nd s l rest')) =
        trailing_spaces_removed (st s)).
    { rewrite loop_body_unfold. cbv zeta.
      destruct Hl as [->|Hf].
      - (* an empty line *)
        rewrite (after_count_fixed [] s) by reflexivity. simpl.
        destruct (prev_empty s) eqn:P.
        + exfalso. destruct (Hadj [] [] (Hp eq_refl) eq_refl) as [H _].
          apply H. split; reflexivity.
        + simpl. auto.
      - (* a line in normal form *)
        pose proof (fixed_line_not_nil _ Hf) as Hne.
        destruct Hf as [Hrs [Hbom [Hpre [Hb Hlf]]]].
        rewrite (after_count_fixed l s Hrs), Hrs.
        rewrite (remove_char_id _ _ Hbom).
        assert (Ht : truthy l = true) by (apply truthy_true; exact Hne).
        rewrite Ht. fold (heading_line Nd l).
        destruct (heading_line Nd l) eqn:Hd.
        + unfold emit_heading. cbn [optimized_lines prev_empty st].
          rewrite (Hnx eq_refl).
          assert (Lc : last_is_content (optimized_lines s) = false).
          { unfold last_is_content.
            destruct (last (optimized_lines s)) as [a|] eqn:La; [|reflexivity].
            destruct (Hadj a l eq_refl eq_refl) as [_ [_ Ha]].
            rewrite (Ha Hd). reflexivity. }
          rewrite Lc. change ([FW; FW] ++ lstrip_chars [FW] l)
            with (FW :: FW :: lstrip_chars [FW] l). rewrite Hpre.
          simpl. repeat split; auto. discriminate.
        + unfold emit_paragraph. cbn [optimized_lines prev_empty st].
          change ([FW; FW] ++ lstrip_chars [FW] l)
            with (FW :: FW :: lstrip_chars [FW] l). rewrite Hpre.
          rewrite bool_decide_eq_false_2 by (intros E; apply E; reflexivity).
          repeat split; auto. discriminate. }
    destruct Step as [So [Sp [Se [Sf St]]]].
    destruct (IH (loop_body Nd s l rest') Hr C') as [Io [Ie [If' It]]].
    + intros a b La Hb. rewrite So in La. apply last_snoc_inv in La. subst a.
      destruct rest' as [|b' r]; [discriminate|]. injection Hb as ->.
      destruct C as [C _]. exact C.
    + intros P. rewrite So, (Sp P). apply last_snoc.
    + rewrite Io, So, <- app_assoc, Ie, If', It. auto.
Qed.

(** The second pass on the output of a document without byte-order mark. *)
Lemma second_pass_same content :
  ~ In BOM content ->
  output_text Nd (output_text Nd content) = output_text Nd content /\
  empty_lines_removed (st (normalize_loop Nd (output_text Nd content))) = 0%nat /\
  formatting_fixed (st (normalize Nd (output_text Nd content))) = 0%nat.
Proof.
  intros H. destruct (normalize_normal_form Nd content H) as [Hg [Hc Hl]].
  assert (Eo : output_text Nd content =
               join_lf (optimized_lines (normalize Nd content))) by reflexivity.
  rewrite Eo. clear Eo.
  destruct (optimized_lines (normalize Nd content)) as [|x out]
    using rev_ind; [repeat split; reflexivity|].
  clear IHout. set (lines := out ++ [x]) in *.
  assert (Hs : split_lf (join_lf lines) = lines).
  { apply split_join_lf; [unfold lines; destruct out; discriminate|].
    eapply List.Forall_impl; [|exact Hg]. apply good_line_no_lf. }
  destruct (main_loop_normal_form lines (initial_state lines) Hg Hc)
    as [Mo [Me [Mf _]]]; [discriminate | discriminate|].
  simpl in Mo, Me, Mf.
  assert (Hx : is_blank x = false).
  { destruct (Hl x) as [_ [_ [_ [B _]]]]; [apply last_snoc | exact B]. }
  assert (Hn : normalize Nd (join_lf lines) = normalize_loop Nd (join_lf lines)).
  { unfold normalize, normalize_loop. rewrite Hs.
    destruct (main_loop Nd (initial_state lines) lines) as [o p t] eqn:Em.
    simpl in Mo. subst o. unfold lines. rewrite trim_trailing_pop, Hx.
    reflexivity. }
  unfold output_text. rewrite Hn. unfold normalize_loop. rewrite Hs, Mo.
  repeat split; assumption.
Qed.

End SecondPass.

(** X7. Normalizing twice is normalizing once, on a document without
    byte-order mark: the second pass writes the same text, its main loop
    collapses no blank line, and it fixes no prefix. *)
Theorem normalize_idempotent_without_bom (Nd : char -> bool)
    (content : pystr) :
  ~ In BOM content ->
  output_text Nd (output_text Nd content) = output_text Nd content /\
  empty_lines_removed (st (normalize_loop Nd (output_text Nd content))) = 0%nat /\
  formatting_fixed (st (normalize Nd (output_text Nd content))) = 0%nat.
Proof. apply second_pass_same. Qed.

(** ** The function on the file system *)

(** When the file is read and the output written, [optimize_novel] writes
    [output_text] of the text read and reports the statistics of
    [normalize]. *)
Lemma optimize_novel_success (Nd : char -> bool) (fs fs' : gmap string file)
    (input_file : string) (output_file : option string) (content : pystr) :
  read_text fs input_file = inr content ->
  write_text fs (default input_file output_file)
    (output_text Nd (drop_bom content)) = inr fs' ->
  optimize_novel Nd fs input_file output_file =
  (true, fs',
   [Optimized (default input_file output_file)
      (st (normalize Nd (drop_bom content)))
      (length (optimized_lines (normalize Nd (drop_bom content))))]).
Proof.
  intros Hr Hw. unfold optimize_novel. rewrite Hr.
  unfold output_text in Hw. rewrite Hw. reflexivity.
Qed.

(** ** Documents with a byte-order mark inside *)

(** C1, at the failing input: the one-line document [a], a space, a
    byte-order mark.  The first pass writes the paragraph with the space left
    at its end; the second pass strips that space, so its output differs. *)
Theorem idempotence_fails_with_embedded_bom (Nd : char -> bool) :
  output_text Nd [97; SPACE; BOM] = [FW; FW; 97; SPACE] /\
  output_text Nd (output_text Nd [97; SPACE; BOM]) = [FW; FW; 97] /\
  output_text Nd (output_text Nd [97; SPACE; BOM]) <>
    output_text Nd [97; SPACE; BOM].
Proof.
  repeat split; try reflexivity. discriminate.
Qed.

(** C4, at the failing input: a heading, a line holding only a byte-order
    mark, a paragraph.  The look-ahead of the heading branch takes the second
    line for content and appends an empty line; the second line then counts
    as blank and a second empty line follows. *)
Theorem consecutive_blanks_with_embedded_bom (Nd : char -> bool) :
  optimized_lines (normalize Nd [DI; 19968; ZHANG; LF; BOM; LF; 97]) =
    [[FW; FW; DI; 19968; ZHANG]; []; []; [FW; FW; 97]] /\
  has_adjacent_empty
    (optimized_lines (normalize Nd [DI; 19968; ZHANG; LF; BOM; LF; 97])) = true.
Proof.
  split; reflexivity.
Qed.

(** The same two runs through the file system, in place. *)
Example idempotence_fails_on_file (Nd : char -> bool) :
  let fs0 : gmap string file :=
    {[ "novel.txt"%string := mkFile true true (Decoded [97; SPACE; BOM]) ]} in
  exists fs1 fs2 p1 p2,
    optimize_novel Nd fs0 "novel.txt" None = (true, fs1, p1) /\
    fs1 !! "novel.txt"%string =
      Some (mkFile true true (Decoded [FW; FW; 97; SPACE])) /\
    optimize_novel Nd fs1 "novel.txt" None = (true, fs2, p2) /\
    fs2 !! "novel.txt"%string =
      Some (mkFile true true (Decoded [FW; FW; 97])).
Proof.
  intros fs0. do 4 eexists. repeat split; reflexivity.
Qed.

(** The example input holds no byte-order mark: a second pass leaves its
    normalized form alone, and that form has no two adjacent empty lines. *)
Lemma sample_idempotent :
  output_text ascii_digit (output_text ascii_digit sample_input) =
  output_text ascii_digit sample_input.
Proof.
  apply (normalize_idempotent_without_bom ascii_digit sample_input).
  vm_compute. intuition discriminate.
Defined.

Lemma sample_no_adjacent_empty :
  has_adjacent_empty (optimized_lines (normalize ascii_digit sample_input))
  = false.
Proof.
  apply (no_consecutive_blank_without_bom ascii_digit sample_input).
  vm_compute. intuition discriminate.
Defined.

(** * Further properties of the normalizer *)

Lemma join_lf_In ls x :
  In x (join_lf ls) -> x = LF \/ exists l, In l ls /\ In x l.
Proof.
  induction ls as [|a r IH]; simpl; [intros []|].
  destruct r as [|b r'].
  - intros H. right. exists a. split; [left; reflexivity | exact H].
  - rewrite in_app_iff. simpl In at 1. intros [H|[H|H]].
    + right. exists a. split; [left; reflexivity | exact H].
    + left. congruence.
    + destruct (IH H) as [E|[l [Hl Hx]]]; [left; exact E|].
      right. exists l. split; [right; exact Hl | exact Hx].
Qed.

Lemma emitted_no_bom line : ~ In BOM (emitted line).
Proof.
  unfold emitted. simpl. intros [H|[H|H]]; [discriminate ..|].
  unfold lstrip_chars in H. apply lstrip_by_In, remove_char_In in H.
  destruct H as [_ H]. congruence.
Qed.

Lemma lstrip_by_idem p s : lstrip_by p (lstrip_by p s) = lstrip_by p s.
Proof.
  apply lstrip_by_id. intros c r E. exact (lstrip_by_head _ _ _ _ E).
Qed.

(** The heading test on an emitted line is the heading test the loop made on
    the source line. *)
Lemma heading_line_emitted Nd line :
  heading_line Nd (emitted line) = heading_source Nd line.
Proof.
  unfold heading_line, heading_source, emitted.
  change (lstrip_chars [FW] (FW :: FW :: ?x)) with (lstrip_chars [FW] x).
  unfold lstrip_chars. rewrite lstrip_by_idem. reflexivity.
Qed.

Lemma is_heading_head Nd t : is_heading Nd t = true -> exists r, t = DI :: r.
Proof.
  unfold is_heading, chapter_patterns. simpl. rewrite orb_false_r.
  destruct t as [|c r]; simpl; [discriminate|].
  intros H. exists r. f_equal.
  apply orb_true_iff in H. destruct H as [H|H];
    apply andb_true_iff in H; destruct H as [H _]; apply N.eqb_eq; exact H.
Qed.

Lemma blank_not_heading Nd l : is_blank l = true -> heading_line Nd l = false.
Proof.
  intros B. destruct (heading_line Nd l) eqn:H; [|reflexivity].
  unfold heading_line in H. apply is_heading_head in H. destruct H as [r E].
  assert (Hin : In DI l).
  { apply (lstrip_by_In (fun c => existsb (N.eqb c) [FW])).
    fold (lstrip_chars [FW] l). rewrite E. left. reflexivity. }
  rewrite is_blank_spec, forallb_forall in B. apply B in Hin. discriminate.
Qed.

Lemma forallb_remove_bom x :
  forallb isspace (remove_char BOM x) =
  forallb (fun c => isspace c || (c =? BOM)) x.
Proof.
  unfold remove_char. induction x as [|c r IH]; simpl; [reflexivity|].
  destruct (c =? BOM) eqn:E; simpl.
  - rewrite orb_true_r. exact IH.
  - rewrite orb_false_r, IH. reflexivity.
Qed.

Lemma forallb_rstrip q x :
  (forall c, isspace c = true -> q c = true) ->
  forallb q (rstrip x) = forallb q x.
Proof.
  intros Hq. destruct (rstrip_by_decompose isspace x) as [suf [E F]].
  fold (rstrip x) in E. rewrite E at 2. rewrite forallb_app.
  assert (Hs : forallb q suf = true).
  { rewrite forallb_forall in *. intros c Hc. apply Hq, F, Hc. }
  rewrite Hs, andb_true_r. reflexivity.
Qed.

Lemma has_text_spec l :
  has_text l = negb (forallb isspace (remove_char BOM (rstrip l))).
Proof.
  rewrite forallb_remove_bom, forallb_rstrip
    by (intros c Hc; rewrite Hc; reflexivity).
  unfold has_text. induction l as [|c r IH]; simpl; [reflexivity|].
  rewrite IH. destruct (isspace c), (c =? BOM); simpl; try reflexivity.
Qed.

Lemma is_blank_emitted line :
  is_blank (emitted line) = negb (has_text line).
Proof.
  rewrite has_text_spec, negb_involutive, is_blank_spec. unfold emitted.
  set (S := remove_char BOM (rstrip line)). simpl.
  destruct (lstrip_by_decompose (fun c => existsb (N.eqb c) [FW]) S)
    as [pre [E F]]. fold (lstrip_chars [FW] S) in E.
  rewrite E at 2. rewrite forallb_app.
  assert (Hp : forallb isspace pre = true).
  { rewrite forallb_forall in *. intros c Hc. specialize (F c Hc).
    simpl in F. rewrite orb_false_r in F. apply N.eqb_eq in F.
    subst c. reflexivity. }
  rewrite Hp. reflexivity.
Qed.

Section Accounting.

Variable Nd : char -> bool.

Lemma after_count_st line s :
  empty_lines_removed (st (after_count line s)) = empty_lines_removed (st s) /\
  chapters_found (st (after_count line s)) = chapters_found (st s) /\
  formatting_fixed (st (after_count line s)) = formatting_fixed (st s) /\
  trailing_spaces_removed (st (after_count line s)) =
    (trailing_spaces_removed (st s) +
     if bool_decide (rstrip line <> line) then 1 else 0)%nat.
Proof.
  unfold after_count. destruct (bool_decide _); simpl; repeat split; lia.
Qed.

Lemma emit_paragraph_trailing stripped s :
  trailing_spaces_removed (st (emit_paragraph stripped s)) =
  trailing_spaces_removed (st s).
Proof. unfold emit_paragraph. destruct (bool_decide _); reflexivity. Qed.

Lemma emit_paragraph_chapters stripped s :
  chapters_found (st (emit_paragraph stripped s)) = chapters_found (st s).
Proof. unfold emit_paragraph. destruct (bool_decide _); reflexivity. Qed.

Lemma loop_body_trailing s line rest :
  trailing_spaces_removed (st (loop_body Nd s line rest)) =
  (trailing_spaces_removed (st s) +
   if bool_decide (rstrip line <> line) then 1 else 0)%nat.
Proof.
  destruct (after_count_st line s) as [_ [_ [_ H]]].
  rewrite loop_body_unfold. cbv zeta.
  destruct (truthy _).
  - destruct (is_heading Nd _); [exact H|].
    rewrite emit_paragraph_trailing. exact H.
  - destruct (prev_empty _); simpl; exact H.
Qed.

Lemma main_loop_trailing lines : forall s,
  trailing_spaces_removed (st (main_loop Nd s lines)) =
  (trailing_spaces_removed (st s) +
   length (List.filter (fun l => bool_decide (rstrip l <> l)) lines))%nat.
Proof.
  induction lines as [|l r IH]; intros s; simpl; [lia|].
  rewrite IH, loop_body_trailing. destruct (bool_decide _); simpl; lia.
Qed.

Lemma trim_trailing_st s :
  chapters_found (st (trim_trailing s)) = chapters_found (st s) /\
  formatting_fixed (st (trim_trailing s)) = formatting_fixed (st s) /\
  trailing_spaces_removed (st (trim_trailing s)) =
    trailing_spaces_removed (st s).
Proof.
  unfold trim_trailing. destruct (pop_blank _ _). simpl. auto.
Qed.

(** Number of heading lines among output lines. *)
Lemma count_headings_app (a b : list (list N)) :
  length (List.filter (heading_line Nd) (a ++ b)) =
  (length (List.filter (heading_line Nd) a) +
   length (List.filter (heading_line Nd) b))%nat.
Proof. rewrite List.filter_app, length_app. reflexivity. Qed.

Lemma loop_body_chapters s line rest :
  (chapters_found (st (loop_body Nd s line rest)) +
   length (List.filter (heading_line Nd) (optimized_lines s)))%nat =
  (chapters_found (st s) +
   length (List.filter (heading_line Nd)
             (optimized_lines (loop_body Nd s line rest))))%nat.
Proof.
  destruct (after_count_st line s) as [_ [Hc _]].
  pose proof (heading_line_emitted Nd line) as He.
  unfold heading_source in He.
  rewrite loop_body_unfold. cbv zeta.
  destruct (truthy _).
  - destruct (is_heading Nd _) eqn:Hd.
    + unfold emit_heading. cbn [optimized_lines st chapters_found incr_chapters_found].
      rewrite after_count_lines, Hc.
      change ([FW; FW] ++ lstrip_chars [FW] (remove_char BOM (rstrip line)))
        with (emitted line).
      destruct (next_is_content rest), (last_is_content (optimized_lines s));
        rewrite ?count_headings_app; simpl; rewrite He; simpl; lia.
    + rewrite emit_paragraph_chapters.
      unfold emit_paragraph. cbn [optimized_lines st].
      rewrite after_count_lines.
      change ([FW; FW] ++ lstrip_chars [FW] (remove_char BOM (rstrip line)))
        with (emitted line).
      rewrite count_headings_app. simpl. rewrite He. simpl. lia.
  - destruct (prev_empty _); cbn [optimized_lines st];
      rewrite after_count_lines, ?count_headings_app; simpl; lia.
Qed.

Lemma main_loop_chapters lines : forall s,
  (chapters_found (st (main_loop Nd s lines)) +
   length (List.filter (heading_line Nd) (optimized_lines s)))%nat =
  (chapters_found (st s) +
   length (List.filter (heading_line Nd)
             (optimized_lines (main_loop Nd s lines))))%nat.
Proof.
  induction lines as [|l r IH]; intros s; simpl; [reflexivity|].
  pose proof (IH (loop_body Nd s l r)) as H1.
  pose proof (loop_body_chapters s l r) as H2. lia.
Qed.

Lemma filter_content_app (a b : list (list N)) :
  List.filter (fun l => negb (is_blank l)) (a ++ b) =
  List.filter (fun l => negb (is_blank l)) a ++
  List.filter (fun l => negb (is_blank l)) b.
Proof. apply List.filter_app. Qed.

Lemma loop_body_content s line rest :
  List.filter (fun l => negb (is_blank l))
    (optimized_lines (loop_body Nd s line rest)) =
  List.filter (fun l => negb (is_blank l)) (optimized_lines s) ++
  (if has_text line then [emitted line] else []).
Proof.
  pose proof (is_blank_emitted line) as Hb.
  pose proof (has_text_spec line) as Ht.
  assert (Hnil : is_blank [] = true) by reflexivity.
  rewrite loop_body_unfold. cbv zeta.
  destruct (truthy _) eqn:T.
  - destruct (is_heading Nd _).
    + unfold emit_heading. cbn [optimized_lines].
      rewrite after_count_lines.
      change ([FW; FW] ++ lstrip_chars [FW] (remove_char BOM (rstrip line)))
        with (emitted line).
      destruct (next_is_content rest), (last_is_content (optimized_lines s));
        rewrite ?filter_content_app; cbn [List.filter];
        rewrite Hb, ?Hnil, negb_involutive; cbn [negb];
        destruct (has_text line); rewrite ?app_nil_r; reflexivity.
    + unfold emit_paragraph. cbn [optimized_lines].
      rewrite after_count_lines.
      change ([FW; FW] ++ lstrip_chars [FW] (remove_char BOM (rstrip line)))
        with (emitted line).
      rewrite filter_content_app. cbn [List.filter].
      rewrite Hb, negb_involutive. destruct (has_text line); reflexivity.
  - apply truthy_false in T. rewrite T in Ht. simpl in Ht. rewrite Ht.
    destruct (prev_empty _); cbn [optimized_lines];
      rewrite after_count_lines, ?filter_content_app; cbn [List.filter];
      rewrite ?Hnil; cbn [negb]; rewrite ?app_nil_r; reflexivity.
Qed.

Lemma main_loop_content lines : forall s,
  List.filter (fun l => negb (is_blank l))
    (optimized_lines (main_loop Nd s lines)) =
  List.filter (fun l => negb (is_blank l)) (optimized_lines s) ++
  map emitted (List.filter has_text lines).
Proof.
  induction lines as [|l r IH]; intros s; simpl; [rewrite app_nil_r; reflexivity|].
  rewrite IH, loop_body_content, <- app_assoc.
  destruct (has_text l); reflexivity.
Qed.

Lemma filter_content_blank suf :
  Forall (fun l => is_blank l = true) suf ->
  List.filter (fun l => negb (is_blank l)) suf = [].
Proof.
  intros F. apply filter_none. intros x Hx.
  rewrite List.Forall_forall in F. rewrite (F x Hx). reflexivity.
Qed.

End Accounting.

(** X1. The last line of the output is never blank: the output is empty or
    ends with a line that holds something other than whitespace. *)
Theorem output_last_line_has_content (Nd : char -> bool) (content : pystr) :
  match last (optimized_lines (normalize Nd content)) with
  | None => optimized_lines (normalize Nd content) = []
  | Some h => is_blank h = false
  end.
Proof.
  destruct (trim_trailing_spec (normalize_loop Nd content)) as [_ [_ [_ [_ H]]]].
  fold (normalize Nd content) in H.
  destruct (last (optimized_lines (normalize Nd content))) eqn:E; [exact H|].
  apply last_None. exact E.
Qed.

Lemma written_text_bom_free (Nd : char -> bool) (content : pystr) :
  ~ In BOM (output_text Nd content).
Proof.
  unfold output_text. intros H.
  apply join_lf_In in H. destruct H as [H|[l [Hl Hx]]]; [discriminate|].
  destruct (normalize_origin Nd content l Hl) as [->|[line [_ ->]]].
  - destruct Hx.
  - exact (emitted_no_bom line Hx).
Qed.

(** X2. The written text never holds a byte-order mark, wherever the input
    has one. *)
Theorem output_has_no_bom (Nd : char -> bool) (content : pystr) :
  ~ In BOM (output_text Nd content).
Proof. apply written_text_bom_free. Qed.

(** X3. [trailing_spaces_removed] is the number of source lines that differ
    from their right-stripped form. *)
Theorem trailing_spaces_removed_counts (Nd : char -> bool) (content : pystr) :
  trailing_spaces_removed (st (normalize Nd content)) =
  length (List.filter (fun l => bool_decide (rstrip l <> l)) (split_lf content)).
Proof.
  unfold normalize.
  destruct (trim_trailing_st (normalize_loop Nd content)) as [_ [_ ->]].
  unfold normalize_loop. rewrite main_loop_trailing. reflexivity.
Qed.

(** X4. [chapters_found] is the number of heading lines in the output. *)
Theorem chapters_found_counts_headings (Nd : char -> bool) (content : pystr) :
  chapters_found (st (normalize Nd content)) =
  length (List.filter (heading_line Nd) (optimized_lines (normalize Nd content))).
Proof.
  destruct (trim_trailing_spec (normalize_loop Nd content)) as [suf [E [F _]]].
  fold (normalize Nd content) in E.
  destruct (trim_trailing_st (normalize_loop Nd content)) as [Hc _].
  fold (normalize Nd content) in Hc. rewrite Hc.
  pose proof (main_loop_chapters Nd (split_lf content)
                (initial_state (split_lf content))) as H.
  fold (normalize_loop Nd content) in H. simpl in H.
  rewrite Nat.add_0_r in H. rewrite H, E, count_headings_app.
  rewrite (filter_none (heading_line Nd) suf); [simpl; lia|].
  intros x Hx. apply blank_not_heading.
  rewrite List.Forall_forall in F. exact (F x Hx).
Qed.

(** X5. No text is lost or reordered: the output lines that are not blank
    are the re-prefixed forms of the source lines with text, in the order of
    the source. *)
Theorem content_lines_preserved (Nd : char -> bool) (content : pystr) :
  List.filter (fun l => negb (is_blank l))
    (optimized_lines (normalize Nd content)) =
  map emitted (List.filter has_text (split_lf content)).
Proof.
  destruct (trim_trailing_spec (normalize_loop Nd content)) as [suf [E [F _]]].
  fold (normalize Nd content) in E.
  pose proof (main_loop_content Nd (split_lf content)
                (initial_state (split_lf content))) as H.
  fold (normalize_loop Nd content) in H. simpl in H.
  rewrite E, filter_content_app, (filter_content_blank suf F), app_nil_r in H.
  exact H.
Qed.

(** X6. On a document without byte-order mark no output line ends in
    whitespace: every line equals its right-stripped form. *)
Theorem no_trailing_whitespace_without_bom (Nd : char -> bool)
    (content : pystr) :
  ~ In BOM content ->
  Forall (fun l => rstrip l = l) (optimized_lines (normalize Nd content)).
Proof.
  intros H. destruct (normalize_normal_form Nd content H) as [Hg _].
  eapply List.Forall_impl; [|exact Hg]. simpl.
  intros l [->|[Hr _]]; [reflexivity | exact Hr].
Qed.

Lemma no_trailing_whitespace_without_bom_witness :
  Forall (fun l => rstrip l = l)
    (optimized_lines (normalize ascii_digit [SPACE; 97; SPACE; FW; LF; LF; 98; 9])).
Proof.
  apply (no_trailing_whitespace_without_bom ascii_digit
           [SPACE; 97; SPACE; FW; LF; LF; 98; 9]).
  vm_compute. intuition discriminate.
Defined.

(** * Further properties on the file system *)

Lemma universal_newlines_no_cr_upto n : forall text,
  (length text <= n)%nat -> ~ In CR (universal_newlines text).
Proof.
  induction n as [|n IH]; intros text Hn.
  - destruct text; [intros [] | simpl in Hn; lia].
  - destruct text as [|c r]; [intros []|]. simpl in Hn. simpl.
    destruct (c =? CR) eqn:E.
    + destruct r as [|d r']; [intros [H|[]]; discriminate|].
      simpl in Hn. destruct (d =? LF).
      * intros [H|H]; [discriminate|]. apply (IH r'); [lia | exact H].
      * intros [H|H]; [discriminate|].
        apply (IH (d :: r')); [simpl; lia | exact H].
    + intros [H|H].
      * apply N.eqb_neq in E. congruence.
      * apply (IH r); [lia | exact H].
Qed.

Lemma universal_newlines_no_cr text : ~ In CR (universal_newlines text).
Proof. apply (universal_newlines_no_cr_upto (length text)). lia. Qed.

Lemma universal_newlines_id text :
  ~ In CR text -> universal_newlines text = text.
Proof.
  induction text as [|c r IH]; simpl; [reflexivity|].
  intros H. destruct (c =? CR) eqn:E.
  - apply N.eqb_eq in E. exfalso. apply H. left. congruence.
  - rewrite IH; [reflexivity|]. intros H'. apply H. right. exact H'.
Qed.

Lemma utf_8_sig_id text : ~ In BOM text -> utf_8_sig text = text.
Proof.
  destruct text as [|c r]; simpl; [reflexivity|].
  intros H. destruct (c =? BOM) eqn:E; [|reflexivity].
  apply N.eqb_eq in E. exfalso. apply H. left. congruence.
Qed.

Lemma drop_bom_id content : ~ In BOM content -> drop_bom content = content.
Proof.
  unfold drop_bom. destruct content as [|c r]; simpl; [reflexivity|].
  intros H. destruct (c =? BOM) eqn:E; [|reflexivity].
  apply N.eqb_eq in E. exfalso. apply H. left. congruence.
Qed.

Lemma drop_bom_In content x : In x (drop_bom content) -> In x content.
Proof.
  unfold drop_bom. destruct content as [|c r]; simpl; [auto|].
  destruct (c =? BOM); simpl; auto.
Qed.

(** Every character of the written text is a line feed, a full-width space
    or a character of the input. *)
Lemma output_text_In Nd content x :
  In x (output_text Nd content) -> x = LF \/ x = FW \/ In x content.
Proof.
  unfold output_text. intros H.
  apply join_lf_In in H. destruct H as [H|[l [Hl Hx]]]; [auto|].
  destruct (normalize_origin Nd content l Hl) as [->|[line [Hline ->]]].
  - destruct Hx.
  - apply emitted_In in Hx. destruct Hx as [Hx|Hx]; [auto|].
    right. right. eapply split_lf_In; eauto.
Qed.

Lemma read_text_no_cr (fs : gmap string file) path content :
  read_text fs path = inr content -> ~ In CR content.
Proof.
  unfold read_text. destruct (fs !! path) as [f|]; [|discriminate].
  destruct (negb (readable f)); [discriminate|].
  destruct (data f); [discriminate|].
  intros E. injection E as <-. apply universal_newlines_no_cr.
Qed.

(** Reading back a file that holds a text written by the normalizer. *)
Lemma read_text_written Nd (fs : gmap string file) path rd wr content :
  ~ In CR content ->
  fs !! path = Some (mkFile rd wr (Decoded (output_text Nd content))) ->
  rd = true ->
  read_text fs path = inr (output_text Nd content).
Proof.
  intros Hcr Hf ->. unfold read_text. rewrite Hf. simpl.
  rewrite utf_8_sig_id by apply written_text_bom_free.
  rewrite universal_newlines_id; [reflexivity|].
  intros H. apply output_text_In in H.
  destruct H as [H|[H|H]]; [discriminate | discriminate | auto].
Qed.

Lemma write_text_spec (fs fs' : gmap string file) path text :
  write_text fs path text = inr fs' ->
  exists rd,
    fs' = <[path := mkFile rd true (Decoded text)]> fs /\
    match fs !! path with
    | None => rd = true
    | Some f => rd = readable f /\ writable f = true
    end.
Proof.
  unfold write_text. destruct (fs !! path) as [f|].
  - destruct (writable f) eqn:W; [|discriminate].
    intros E. injection E as <-. exists (readable f). auto.
  - intros E. injection E as <-. exists true. auto.
Qed.

(** The three ways [optimize_novel] ends. *)
Lemma optimize_novel_cases Nd (fs : gmap string file) input_file output_file :
  (exists e, read_text fs input_file = inl e /\
     optimize_novel Nd fs input_file output_file = (false, fs, [ReadFailed e]))
  \/
  (exists content e, read_text fs input_file = inr content /\
     write_text fs (default input_file output_file)
       (output_text Nd (drop_bom content)) = inl e /\
     optimize_novel Nd fs input_file output_file = (false, fs, [WriteFailed e]))
  \/
  (exists content fs', read_text fs input_file = inr content /\
     write_text fs (default input_file output_file)
       (output_text Nd (drop_bom content)) = inr fs' /\
     optimize_novel Nd fs input_file output_file =
       (true, fs',
        [Optimized (default input_file output_file)
           (st (normalize Nd (drop_bom content)))
           (length (optimized_lines (normalize Nd (drop_bom content))))])).
Proof.
  unfold optimize_novel, output_text.
  destruct (read_text fs input_file) as [e|content]; [left; eauto|].
  right.
  destruct (write_text _ _ _) as [e|fs'] eqn:W; [left | right]; eauto 6.
Qed.

Lemma read_text_Some (fs : gmap string file) path content :
  read_text fs path = inr content ->
  exists f, fs !! path = Some f /\ readable f = true.
Proof.
  unfold read_text. destruct (fs !! path) as [f|]; [|discriminate].
  destruct (readable f) eqn:Hr; [|discriminate]. eauto.
Qed.


Lemma read_back_in_place (Nd : char -> bool) (fs : gmap string file)
    (input_file : string) :
  fst (fst (optimize_novel Nd fs input_file None)) = true ->
  exists content,
    read_text fs input_file = inr content /\
    read_text (snd (fst (optimize_novel Nd fs input_file None))) input_file =
      inr (output_text Nd (drop_bom content)).
Proof.
  intros Hok.
  destruct (optimize_novel_cases Nd fs input_file None)
    as [[e [_ E]]|[[c [e [_ [_ E]]]]|[c [fs' [R [W E]]]]]];
    rewrite E in *; simpl in Hok; try discriminate.
  exists c. split; [exact R|]. simpl. simpl in W.
  apply write_text_spec in W. destruct W as [rd [-> Hrd]].
  destruct (read_text_Some _ _ _ R) as [f [Hf Hr]]. rewrite Hf in Hrd.
  apply (read_text_written Nd _ input_file rd true).
  - intros H. apply drop_bom_In in H. exact (read_text_no_cr _ _ _ R H).
  - apply lookup_insert_eq.
  - destruct Hrd as [-> _]. exact Hr.
Qed.

(** X10. After a successful run in place, reading the file again gives
    exactly the text the normalizer computed from what it had read. *)
Theorem optimized_file_reads_back (Nd : char -> bool) (fs : gmap string file)
    (input_file : string) :
  fst (fst (optimize_novel Nd fs input_file None)) = true ->
  exists content,
    read_text fs input_file = inr content /\
    read_text (snd (fst (optimize_novel Nd fs input_file None))) input_file =
      inr (output_text Nd (drop_bom content)).
Proof. apply read_back_in_place. Qed.

Lemma optimized_file_reads_back_witness :
  exists content,
    read_text {[ "a.txt"%string := mkFile true true (Decoded [BOM; 97; CR; LF; CR; 98]) ]}
      "a.txt" = inr content /\
    read_text
      (snd (fst (optimize_novel ascii_digit
                   {[ "a.txt"%string :=
                        mkFile true true (Decoded [BOM; 97; CR; LF; CR; 98]) ]}
                   "a.txt" None))) "a.txt" =
      inr (output_text ascii_digit (drop_bom content)).
Proof.
  apply (optimized_file_reads_back ascii_digit
           {[ "a.txt"%string :=
                mkFile true true (Decoded [BOM; 97; CR; LF; CR; 98]) ]} "a.txt").
  reflexivity.
Defined.

(** X11. On a file whose text holds no byte-order mark, a second run in place
    succeeds and leaves the file system exactly as the first run left it. *)
Theorem second_run_changes_nothing (Nd : char -> bool) (fs : gmap string file)
    (input_file : string) (content : pystr) :
  read_text fs input_file = inr content ->
  ~ In BOM content ->
  fst (fst (optimize_novel Nd fs input_file None)) = true ->
  fst (fst (optimize_novel Nd
              (snd (fst (optimize_novel Nd fs input_file None)))
              input_file None)) = true /\
  snd (fst (optimize_novel Nd
              (snd (fst (optimize_novel Nd fs input_file None)))
              input_file None)) =
  snd (fst (optimize_novel Nd fs input_file None)).
Proof.
  intros R Hbom Hok.
  destruct (optimize_novel_cases Nd fs input_file None)
    as [[e [_ E]]|[[c [e [_ [_ E]]]]|[c [fs1 [R1 [W E]]]]]];
    rewrite E in *; simpl in Hok; try discriminate.
  rewrite R in R1. injection R1 as <-. simpl. simpl in W.
  rewrite (drop_bom_id _ Hbom) in W.
  apply write_text_spec in W. destruct W as [rd [-> Hrd]].
  destruct (read_text_Some _ _ _ R) as [f [Hf Hr]]. rewrite Hf in Hrd.
  destruct Hrd as [-> _]. rewrite Hr.
  set (T := output_text Nd content).
  set (fs1 := <[input_file := mkFile true true (Decoded T)]> fs).
  assert (R2 : read_text fs1 input_file = inr T).
  { apply (read_text_written Nd fs1 input_file true true);
      [exact (read_text_no_cr _ _ _ R) | apply lookup_insert_eq | reflexivity]. }
  assert (HT : ~ In BOM T) by apply written_text_bom_free.
  assert (Hidem : output_text Nd (drop_bom T) = T).
  { rewrite (drop_bom_id _ HT). apply (second_pass_same Nd content Hbom). }
  assert (W2 : write_text fs1 input_file (output_text Nd (drop_bom T)) = inr fs1).
  { rewrite Hidem. unfold write_text, fs1. rewrite lookup_insert_eq. simpl.
    rewrite insert_insert_eq. reflexivity. }
  rewrite (optimize_novel_success Nd fs1 fs1 input_file None T R2 W2).
  split; reflexivity.
Qed.

Lemma second_run_changes_nothing_witness :
  let fs : gmap string file :=
    {[ "a.txt"%string := mkFile true true (Decoded [97; SPACE; LF; LF; LF; 98]) ]} in
  snd (fst (optimize_novel ascii_digit
              (snd (fst (optimize_novel ascii_digit fs "a.txt" None)))
              "a.txt" None)) =
  snd (fst (optimize_novel ascii_digit fs "a.txt" None)).
Proof.
  intros fs.
  apply (second_run_changes_nothing ascii_digit fs "a.txt"
           [97; SPACE; LF; LF; LF; 98]).
  - reflexivity.
  - vm_compute. intuition discriminate.
  - reflexivity.
Defined.

(** * Further properties of the lint pass *)

Lemma line_issues_trailing i line ce :
  of_kind TrailingSpace (line_issues i line ce) =
  if bool_decide (rstrip line <> line)
  then [mkIssue i TrailingSpace TrailingSpaceFound] else [].
Proof.
  unfold line_issues, lint_body.
  destruct (negb (truthy (strip line))); simpl;
    destruct (2 <? S ce)%nat, (bool_decide (rstrip line <> line)),
      (contains BOM line); reflexivity.
Qed.

Lemma of_kind_app kind (a b : list issue) :
  of_kind kind (a ++ b) = of_kind kind a ++ of_kind kind b.
Proof. apply List.filter_app. Qed.

(** A line that ends with a line feed differs from its right-stripped
    form. *)
Lemma rstrip_lf_terminated t : rstrip (t ++ [LF]) <> t ++ [LF].
Proof.
  intros E. apply rstrip_by_last in E. discriminate.
Qed.

Lemma lint_loop_trailing_count lines : forall i ce,
  length (of_kind TrailingSpace (snd (lint_loop i lines (ce, [])))) =
  length (List.filter (fun l => bool_decide (rstrip l <> l)) lines).
Proof.
  induction lines as [|l r IH]; intros i ce; [reflexivity|].
  rewrite lint_loop_cons, of_kind_app, length_app, IH, line_issues_trailing.
  simpl. destruct (bool_decide _); reflexivity.
Qed.

Lemma readlines_from_flagged s : forall cur,
  (count_char LF s <=
   length (List.filter (fun l => bool_decide (rstrip l <> l))
             (readlines_from cur s)))%nat.
Proof.
  unfold count_char.
  induction s as [|c r IH]; intros cur; simpl; [lia|].
  destruct (c =? LF) eqn:E; simpl.
  - apply N.eqb_eq in E. subst c.
    rewrite bool_decide_eq_true_2 by apply rstrip_lf_terminated.
    simpl. specialize (IH []). lia.
  - apply IH.
Qed.

Lemma readlines_from_In s : forall cur l x,
  In l (readlines_from cur s) -> In x l -> In x cur \/ In x s.
Proof.
  induction s as [|c r IH]; intros cur l x; simpl.
  - destruct cur as [|d cur']; [intros []|].
    intros [<-|[]] Hx. left. apply in_rev. exact Hx.
  - destruct (c =? LF) eqn:E.
    + intros [<-|Hl] Hx.
      * simpl in Hx. apply in_app_iff in Hx. destruct Hx as [Hx|[<-|[]]].
        -- left. apply in_rev. exact Hx.
        -- right. left. reflexivity.
      * destruct (IH _ _ _ Hl Hx) as [[]|H]. right. right. exact H.
    + intros Hl Hx. destruct (IH _ _ _ Hl Hx) as [[<-|H]|H]; auto.
Qed.

Lemma lint_loop_no_bom lines : forall i ce,
  Forall (fun l => ~ In BOM l) lines ->
  of_kind BomChar (snd (lint_loop i lines (ce, []))) = [].
Proof.
  induction lines as [|l r IH]; intros i ce F; [reflexivity|].
  inversion F as [|? ? Hl Hr]; subst.
  rewrite lint_loop_cons, of_kind_app, (IH _ _ Hr), line_issues_bom.
  destruct (contains BOM l) eqn:C; [|reflexivity].
  unfold contains in C. apply existsb_exists in C.
  destruct C as [x [Hx E]]. apply N.eqb_eq in E. subst x. contradiction.
Qed.

(** X12. For every line of the file, the issues carrying its 1-based number
    hold exactly one issue of the trailing-whitespace category when the line
    differs from its right-stripped form, and none otherwise. *)
Theorem lint_trailing_detection (fs : gmap string file) (path : string)
    (content : pystr) (k : nat) (line : pystr) :
  read_text fs path = inr content ->
  readlines content !! k = Some line ->
  exists issues,
    lint_scan fs path = inr issues /\
    of_kind TrailingSpace (issues_at (S k) issues) =
    if bool_decide (rstrip line <> line)
    then [mkIssue (S k) TrailingSpace TrailingSpaceFound] else [].
Proof.
  intros Hr Hk. unfold lint_scan. rewrite Hr.
  eexists. split; [reflexivity|].
  rewrite (lint_issues_at _ _ _ Hk), line_issues_trailing. reflexivity.
Qed.

Lemma lint_trailing_detection_witness :
  exists issues,
    lint_scan {[ "a.txt"%string := mkFile true true (Decoded [97; 9; LF; 98]) ]}
      "a.txt" = inr issues /\
    of_kind TrailingSpace (issues_at 2 issues) = [].
Proof.
  apply (lint_trailing_detection
           {[ "a.txt"%string := mkFile true true (Decoded [97; 9; LF; 98]) ]}
           "a.txt" [97; 9; LF; 98] 1 [98]); reflexivity.
Defined.

(** X13. The lines keep their line feed, and a line feed is trailing
    whitespace: the lint pass reports at least one trailing-whitespace issue
    per line feed of the text, so it never prints its pass confirmation for a
    text that holds a line feed. *)
Theorem lint_flags_every_line_feed (fs : gmap string file) (path : string)
    (content : pystr) :
  read_text fs path = inr content ->
  exists issues,
    lint_scan fs path = inr issues /\
    (count_char LF content <= length (of_kind TrailingSpace issues))%nat /\
    (In LF content -> lint_check fs path <> [LintPassed]).
Proof.
  intros Hr. unfold lint_check, lint_scan. rewrite Hr.
  eexists. split; [reflexivity|].
  assert (Hc : (count_char LF content <=
                length (of_kind TrailingSpace (lint_issues (readlines content))))%nat).
  { unfold lint_issues. rewrite lint_loop_trailing_count.
    apply readlines_from_flagged. }
  split; [exact Hc|].
  intros Hin.
  assert (Hpos : (0 < count_char LF content)%nat).
  { unfold count_char. clear -Hin.
    induction content as [|c r IH]; [destruct Hin|]. simpl.
    destruct (c =? LF) eqn:E; simpl; [lia|].
    destruct Hin as [H|H]; [apply N.eqb_neq in E; congruence | auto]. }
  destruct (lint_issues (readlines content)); [simpl in Hc; lia | discriminate].
Qed.

Lemma lint_flags_every_line_feed_witness :
  lint_check {[ "a.txt"%string := mkFile true true (Decoded [97; LF; 98]) ]}
    "a.txt" <> [LintPassed].
Proof.
  destruct (lint_flags_every_line_feed
              {[ "a.txt"%string := mkFile true true (Decoded [97; LF; 98]) ]}
              "a.txt" [97; LF; 98]) as [issues [_ [_ H]]].
  - reflexivity.
  - apply H. right. left. reflexivity.
Defined.

Lemma lint_loop_ordered lines : forall n ce i j a b,
  snd (lint_loop n lines (ce, [])) !! i = Some a ->
  snd (lint_loop n lines (ce, [])) !! j = Some b ->
  (i <= j)%nat -> (issue_line a <= issue_line b)%nat.
Proof.
  induction lines as [|l r IH]; intros n ce i j a b; [discriminate|].
  rewrite lint_loop_cons. intros Ha Hb Hij.
  set (A := line_issues n l ce) in *.
  set (B := snd (lint_loop (S n) r (next_count l ce, []))) in *.
  assert (HA : forall x, In x A -> issue_line x = n)
    by (intros x Hx; exact (line_issues_line _ _ _ _ Hx)).
  assert (HB : forall x, In x B -> (S n <= issue_line x)%nat)
    by (intros x Hx; apply lint_loop_lines in Hx; lia).
  destruct (decide (i < length A)%nat) as [Hi|Hi];
    destruct (decide (j < length A)%nat) as [Hj|Hj].
  - rewrite lookup_app_l in Ha, Hb by lia.
    apply list_elem_of_lookup_2, list_elem_of_In, HA in Ha.
    apply list_elem_of_lookup_2, list_elem_of_In, HA in Hb. lia.
  - rewrite lookup_app_l in Ha by lia. rewrite lookup_app_r in Hb by lia.
    apply list_elem_of_lookup_2, list_elem_of_In, HA in Ha.
    apply list_elem_of_lookup_2, list_elem_of_In, HB in Hb. lia.
  - lia.
  - rewrite lookup_app_r in Ha, Hb by lia.
    apply (IH _ _ _ _ _ _ Ha Hb). lia.
Qed.

(** X14. The issues come out in the order of the lines: line numbers never
    decrease along [issues], and each lies between 1 and the number of
    lines.  So the issues printed, the first 20, are those of the earliest
    lines. *)
Theorem lint_issues_ordered (lines : list pystr) (i j : nat) (a b : issue) :
  lint_issues lines !! i = Some a ->
  lint_issues lines !! j = Some b ->
  (i <= j)%nat ->
  (1 <= issue_line a)%nat /\ (issue_line a <= issue_line b)%nat /\
  (issue_line b <= length lines)%nat.
Proof.
  unfold lint_issues. intros Ha Hb Hij. repeat split.
  - apply list_elem_of_lookup_2, list_elem_of_In, lint_loop_lines in Ha. lia.
  - exact (lint_loop_ordered _ _ _ _ _ _ _ Ha Hb Hij).
  - apply list_elem_of_lookup_2, list_elem_of_In, lint_loop_lines in Hb. lia.
Qed.

Lemma lint_issues_ordered_witness :
  (1 <= 1)%nat /\ (1 <= 3)%nat /\ (3 <= 3)%nat.
Proof.
  apply (lint_issues_ordered [[97; SPACE; LF]; [LF]; [BOM]] 0 2
           (mkIssue 1 TrailingSpace TrailingSpaceFound)
           (mkIssue 3 BomChar BomFound)); [reflexivity | reflexivity | lia].
Defined.

(** X15. The lint pass finds no byte-order mark in a text the normalizer
    wrote, whatever the input was. *)
Theorem lint_no_bom_after_normalize (Nd : char -> bool) (content : pystr) :
  of_kind BomChar (lint_issues (readlines (output_text Nd content))) = [].
Proof.
  unfold lint_issues. apply lint_loop_no_bom.
  apply List.Forall_forall. intros l Hl Hx.
  destruct (readlines_from_In _ _ _ _ Hl Hx) as [[]|H].
  exact (written_text_bom_free Nd content H).
Qed.

(** ** The lines of a joined text *)

Lemma readlines_from_line x : forall cur,
  ~ In LF x ->
  readlines_from cur x = match rev cur ++ x with [] => [] | l => [l] end.
Proof.
  induction x as [|c r IH]; intros cur H; simpl.
  - rewrite app_nil_r. destruct cur as [|d cur']; [reflexivity|]. simpl.
    destruct (rev cur' ++ [d]) eqn:E; [destruct (rev cur'); discriminate|].
    reflexivity.
  - destruct (c =? LF) eqn:E.
    + apply N.eqb_eq in E. exfalso. apply H. left. congruence.
    + rewrite IH by (intros H'; apply H; right; exact H'). simpl.
      rewrite <- app_assoc. reflexivity.
Qed.

Lemma readlines_from_app x s : forall cur,
  ~ In LF x ->
  readlines_from cur (x ++ LF :: s) =
  (rev cur ++ x ++ [LF]) :: readlines_from [] s.
Proof.
  induction x as [|c r IH]; intros cur H; simpl.
  - reflexivity.
  - destruct (c =? LF) eqn:E.
    + apply N.eqb_eq in E. exfalso. apply H. left. congruence.
    + rewrite IH by (intros H'; apply H; right; exact H'). simpl.
      rewrite <- app_assoc. reflexivity.
Qed.

(** The lines read from a joined text are as blank as the lines joined, one
    for one, when no line holds a line feed and the last one is not empty. *)
Lemma readlines_join_blank out :
  Forall (fun l => ~ In LF l) out ->
  (forall h, last out = Some h -> h <> []) ->
  Forall2 (fun l l' => is_blank l' = is_blank l) out (readlines (join_lf out)).
Proof.
  unfold readlines.
  induction out as [|x r IH]; intros F Hl; [constructor|].
  inversion F as [|? ? Hx Hr]; subst.
  destruct r as [|y r'].
  - simpl. rewrite readlines_from_line by exact Hx. simpl.
    destruct x as [|c x']; [exfalso; exact (Hl [] eq_refl eq_refl)|].
    repeat constructor.
  - change (join_lf (x :: y :: r')) with (x ++ LF :: join_lf (y :: r')).
    rewrite readlines_from_app by exact Hx. simpl.
    constructor.
    + rewrite !is_blank_spec, forallb_app. simpl. rewrite andb_true_r.
      reflexivity.
    + apply IH; [exact Hr|]. intros h Lh. apply Hl. exact Lh.
Qed.

Lemma lint_loop_no_run out lines : forall i ce,
  Forall2 (fun l l' => is_blank l' = is_blank l) out lines ->
  chain (fun a b => ~ (is_blank a = true /\ is_blank b = true)) out ->
  (ce <= 1)%nat ->
  (ce = 1%nat -> forall h, head out = Some h -> is_blank h = false) ->
  of_kind ConsecutiveEmpty (snd (lint_loop i lines (ce, []))) = [].
Proof.
  intros i ce F. revert i ce.
  induction F as [|l l' out lines Hb F IH]; intros i ce C Hce Hh;
    [reflexivity|].
  rewrite lint_loop_cons, of_kind_app, line_issues_consecutive.
  assert (E : is_blank l' && (2 <? S ce)%nat = false).
  { destruct ce as [|[|ce]]; [apply andb_false_r| |lia].
    rewrite Hb, (Hh eq_refl l eq_refl). reflexivity. }
  rewrite E. simpl. apply IH.
  - destruct C as [_ C]. exact C.
  - unfold next_count. destruct ce as [|[|ce]]; [destruct (is_blank l'); lia| |lia].
    rewrite Hb, (Hh eq_refl l eq_refl). lia.
  - unfold next_count. rewrite Hb. destruct (is_blank l) eqn:Bl; [|discriminate].
    intros _ h Hd. destruct out as [|b out']; [discriminate|].
    injection Hd as ->. destruct C as [C _].
    destruct (is_blank h) eqn:Bh; [|reflexivity].
    exfalso. apply C. split; [exact Bl | reflexivity].
Qed.

Lemma chain_impl (R Q : list N -> list N -> Prop) out :
  (forall a b, R a b -> Q a b) -> chain R out -> chain Q out.
Proof.
  intros H. induction out as [|a r IH]; simpl; [auto|].
  intros [H1 H2]. split; [|exact (IH H2)].
  destruct r as [|b r']; [exact I | exact (H _ _ H1)].
Qed.

(** X16. On a document without byte-order mark, the lint pass finds no run
    of more than two blank lines in the text the normalizer wrote. *)
Theorem lint_no_blank_run_after_normalize (Nd : char -> bool)
    (content : pystr) :
  ~ In BOM content ->
  of_kind ConsecutiveEmpty
    (lint_issues (readlines (output_text Nd content))) = [].
Proof.
  intros H. destruct (normalize_normal_form Nd content H) as [Hg [Hc Hl]].
  unfold output_text, lint_issues.
  apply (lint_loop_no_run (optimized_lines (normalize Nd content))).
  - apply readlines_join_blank.
    + eapply List.Forall_impl; [|exact Hg]. apply good_line_no_lf.
    + intros h Lh. exact (fixed_line_not_nil _ (Hl h Lh)).
  - assert (Hchain : forall out, Forall good_line out ->
              chain (adjacent_ok Nd) out ->
              chain (fun a b => ~ (is_blank a = true /\ is_blank b = true)) out).
    { induction out as [|a r IH]; simpl; [auto|].
      intros Fg [H1 H2]. inversion Fg as [|? ? Ga Gr]; subst.
      split; [|exact (IH Gr H2)].
      destruct r as [|b r']; [exact I|].
      inversion Gr as [|? ? Gb _]; subst.
      intros [Ba Bb]. destruct H1 as [H1 _]. apply H1.
      split; apply good_line_blank; assumption. }
    apply Hchain; assumption.
  - lia.
  - intros E. discriminate.
Qed.

Lemma lint_no_blank_run_after_normalize_witness :
  of_kind ConsecutiveEmpty
    (lint_issues (readlines (output_text ascii_digit
                               [97; LF; LF; LF; LF; SPACE; LF; 98]))) = [].
Proof.
  apply (lint_no_blank_run_after_normalize ascii_digit
           [97; LF; LF; LF; LF; SPACE; LF; 98]).
  vm_compute. intuition discriminate.
Defined.

(** * Properties of the entry point *)

Lemma string_length_append a b :
  String.length (String.append a b) = (String.length a + String.length b)%nat.
Proof. induction a as [|c a IH]; simpl; [reflexivity | rewrite IH; reflexivity]. Qed.

(** The backup path is never the input path. *)
Lemma backup_path_differs input_file : String.append input_file ".bak" <> input_file.
Proof.
  intros E. apply (f_equal String.length) in E.
  rewrite string_length_append in E. simpl in E. lia.
Qed.

Lemma copy2_spec (fs fs1 : gmap string file) src dst :
  copy2 fs src dst = inr fs1 ->
  exists f, fs !! src = Some f /\ readable f = true /\ fs1 = <[dst := f]> fs.
Proof.
  unfold copy2. destruct (fs !! src) as [f|]; [|discriminate].
  destruct (readable f) eqn:R; [|discriminate]. simpl.
  destruct (fs !! dst) as [g|].
  - destruct (writable g); [|discriminate].
    intros E. injection E as <-. eauto.
  - intros E. injection E as <-. eauto.
Qed.

Lemma read_text_same (fs fs1 : gmap string file) path :
  fs1 !! path = fs !! path -> read_text fs1 path = read_text fs path.
Proof. unfold read_text. intros ->. reflexivity. Qed.

Lemma after_backup_other (fs : gmap string file) input_file path :
  path <> String.append input_file ".bak" ->
  after_backup fs input_file !! path = fs !! path.
Proof.
  intros Hp. unfold after_backup.
  destruct (copy2 fs input_file _) as [e|fs1] eqn:C; [reflexivity|].
  apply copy2_spec in C. destruct C as [f [_ [_ ->]]].
  apply lookup_insert_ne. congruence.
Qed.

(** [main] on an existing file: the backup step, then [optimize_novel] in
    place, then the lint pass when the run succeeded. *)
Lemma main_runs Nd prog input_file more (fs : gmap string file) f :
  fs !! input_file = Some f ->
  main Nd (prog :: input_file :: more) fs =
  (Returned,
   snd (fst (optimize_novel Nd (after_backup fs input_file) input_file None)),
   [Started input_file; Rule; backup_line fs input_file]
   ++ map Said (snd (optimize_novel Nd (after_backup fs input_file)
                       input_file None))
   ++ (if fst (fst (optimize_novel Nd (after_backup fs input_file)
                      input_file None))
       then [Rule]
            ++ map Said
                 (lint_check
                    (snd (fst (optimize_novel Nd (after_backup fs input_file)
                                 input_file None))) input_file)
            ++ [Finished]
       else [Failed])).
Proof.
  intros Hf. unfold main, after_backup, backup_line. rewrite Hf.
  destruct (copy2 fs input_file _) as [e|fs1];
    destruct (optimize_novel Nd _ input_file None) as [[ok fs2] out];
    destruct ok; reflexivity.
Qed.

(** X17. [main] ends the process only with code 1 and only before any
    effect: with fewer than two entries in [sys.argv] it prints the usage
    line and exits with 1; whenever it exits, the code is 1 and the file
    system is as it was; and when a file is at the given path it does not
    exit but returns. *)
Theorem main_exits_before_any_effect (Nd : char -> bool) (argv : list string)
    (fs : gmap string file) :
  ((length argv < 2)%nat -> main Nd argv fs = (Exited 1, fs, [Usage])) /\
  (forall code, fst (fst (main Nd argv fs)) = Exited code ->
     code = 1%nat /\ snd (fst (main Nd argv fs)) = fs) /\
  (forall input_file f,
     argv !! 1%nat = Some input_file -> fs !! input_file = Some f ->
     fst (fst (main Nd argv fs)) = Returned).
Proof.
  destruct argv as [|prog [|input_file more]].
  - simpl. repeat split; try discriminate; congruence.
  - simpl. repeat split; try discriminate; congruence.
  - destruct (fs !! input_file) as [f|] eqn:Hf.
    + rewrite (main_runs Nd prog input_file more fs f Hf). cbn [fst snd].
      repeat split; try discriminate.
      simpl. lia.
    + unfold main. rewrite Hf. cbn [fst snd]. split; [simpl; lia|]. split.
      * intros code E. injection E as <-. split; reflexivity.
      * intros i f' Hi Hf'. injection Hi as <-. congruence.
Qed.

Lemma main_exits_before_any_effect_witness :
  main ascii_digit ["optimize_novel.py"]%string
    {[ "a.txt"%string := mkFile true true (Decoded [97]) ]} =
  (Exited 1, {[ "a.txt"%string := mkFile true true (Decoded [97]) ]}, [Usage])
  /\
  fst (fst (main ascii_digit ["optimize_novel.py"; "a.txt"]%string
              {[ "a.txt"%string := mkFile true true (Decoded [97]) ]})) =
  Returned.
Proof.
  split.
  - apply (proj1 (main_exits_before_any_effect ascii_digit
                    ["optimize_novel.py"]%string
                    {[ "a.txt"%string := mkFile true true (Decoded [97]) ]})).
    simpl. lia.
  - apply (proj2 (proj2 (main_exits_before_any_effect ascii_digit
                           ["optimize_novel.py"; "a.txt"]%string
                           {[ "a.txt"%string :=
                                mkFile true true (Decoded [97]) ]}))
             "a.txt"%string (mkFile true true (Decoded [97])));
      reflexivity.
Defined.



Lemma write_text_writable (fs : gmap string file) path f text :
  fs !! path = Some f -> writable f = true ->
  write_text fs path text =
  inr (<[path := mkFile (readable f) true (Decoded text)]> fs).
Proof. intros Hf Hw. unfold write_text. rewrite Hf, Hw. reflexivity. Qed.

(** A run of [main] on a file that can be read and written: what
    [optimize_novel] is called on, and what it does. *)
Lemma main_success Nd prog input_file more (fs : gmap string file) f content :
  fs !! input_file = Some f ->
  writable f = true ->
  read_text fs input_file = inr content ->
  optimize_novel Nd (after_backup fs input_file) input_file None =
  (true,
   <[input_file :=
       mkFile true true (Decoded (output_text Nd (drop_bom content)))]>
     (after_backup fs input_file),
   [Optimized input_file (st (normalize Nd (drop_bom content)))
      (length (optimized_lines (normalize Nd (drop_bom content))))]) /\
  main Nd (prog :: input_file :: more) fs =
  (Returned,
   <[input_file :=
       mkFile true true (Decoded (output_text Nd (drop_bom content)))]>
     (after_backup fs input_file),
   [Started input_file; Rule; backup_line fs input_file;
    Said (Optimized input_file (st (normalize Nd (drop_bom content)))
            (length (optimized_lines (normalize Nd (drop_bom content)))));
    Rule]
   ++ map Said
        (lint_check
           (<[input_file :=
                mkFile true true (Decoded (output_text Nd (drop_bom content)))]>
              (after_backup fs input_file)) input_file)
   ++ [Finished]).
Proof.
  intros Hf Hw Hr.
  assert (Hab : after_backup fs input_file !! input_file = Some f).
  { rewrite after_backup_other; [exact Hf|].
    intros E. symmetry in E. exact (backup_path_differs _ E). }
  destruct (read_text_Some _ _ _ Hr) as [f' [Hf' Hrd]].
  rewrite Hf in Hf'. injection Hf' as <-.
  assert (E : optimize_novel Nd (after_backup fs input_file) input_file None =
    (true,
     <[input_file :=
         mkFile true true (Decoded (output_text Nd (drop_bom content)))]>
       (after_backup fs input_file),
     [Optimized input_file (st (normalize Nd (drop_bom content)))
        (length (optimized_lines (normalize Nd (drop_bom content))))])).
  { apply (optimize_novel_success Nd _ _ input_file None content).
    - rewrite (read_text_same fs (after_backup fs input_file));
        [exact Hr | rewrite Hab, Hf; reflexivity].
    - simpl. rewrite (write_text_writable _ _ f _ Hab Hw), Hrd. reflexivity. }
  split; [exact E|].
  rewrite (main_runs Nd prog input_file more fs f Hf), E. reflexivity.
Qed.

(** X20. A backup that fails does not stop the run: when the backup path
    holds a file that cannot be written, [main] prints the failure, leaves
    that file alone and still rewrites the input file in place. *)
Theorem main_backup_failure_not_fatal (Nd : char -> bool)
    (prog input_file : string) (more : list string) (fs : gmap string file)
    (f g : file) (content : pystr) :
  fs !! input_file = Some f ->
  writable f = true ->
  read_text fs input_file = inr content ->
  fs !! String.append input_file ".bak" = Some g ->
  writable g = false ->
  fst (fst (main Nd (prog :: input_file :: more) fs)) = Returned /\
  In (BackupFailed PermissionError)
     (snd (main Nd (prog :: input_file :: more) fs)) /\
  snd (fst (main Nd (prog :: input_file :: more) fs))
    !! String.append input_file ".bak" = Some g /\
  snd (fst (main Nd (prog :: input_file :: more) fs)) !! input_file =
    Some (mkFile true true (Decoded (output_text Nd (drop_bom content)))).
Proof.
  intros Hf Hw Hr Hg Hgw.
  destruct (main_success Nd prog input_file more fs f content Hf Hw Hr)
    as [_ ->].
  destruct (read_text_Some _ _ _ Hr) as [f' [Hf' Hrd]].
  rewrite Hf in Hf'. injection Hf' as <-.
  assert (Hc : copy2 fs input_file (String.append input_file ".bak") =
               inl PermissionError).
  { unfold copy2. rewrite Hf, Hrd, Hg, Hgw. reflexivity. }
  cbn [fst snd]. repeat split.
  - unfold backup_line. rewrite Hc. right. right. left. reflexivity.
  - rewrite lookup_insert_ne by (intros E; symmetry in E;
                                 exact (backup_path_differs _ E)).
    unfold after_backup. rewrite Hc. exact Hg.
  - apply lookup_insert_eq.
Qed.

Lemma main_backup_failure_not_fatal_witness :
  snd (fst (main ascii_digit ["optimize_novel.py"; "a.txt"]%string
              {[ "a.txt"%string := mkFile true true (Decoded [97; SPACE]);
                 "a.txt.bak"%string := mkFile true false (Decoded [111]) ]}))
    !! "a.txt.bak"%string
  = Some (mkFile true false (Decoded [111])).
Proof.
  apply (main_backup_failure_not_fatal ascii_digit "optimize_novel.py" "a.txt" []
           {[ "a.txt"%string := mkFile true true (Decoded [97; SPACE]);
              "a.txt.bak"%string := mkFile true false (Decoded [111]) ]}
           (mkFile true true (Decoded [97; SPACE]))
           (mkFile true false (Decoded [111])) [97; SPACE]);
    reflexivity.
Defined.

(** X21. On a file that can be read and written, [main] returns, and the
    lint pass it runs scans exactly the text the normalizer has just
    written: its issues are those of the lines of that text. *)
Theorem main_lints_written_text (Nd : char -> bool) (prog input_file : string)
    (more : list string) (fs : gmap string file) (f : file)
    (content : pystr) :
  fs !! input_file = Some f ->
  writable f = true ->
  read_text fs input_file = inr content ->
  fst (fst (main Nd (prog :: input_file :: more) fs)) = Returned /\
  lint_scan (snd (fst (main Nd (prog :: input_file :: more) fs))) input_file =
    inr (lint_issues (readlines (output_text Nd (drop_bom content)))) /\
  exists before,
    snd (main Nd (prog :: input_file :: more) fs) =
    before
    ++ map Said (lint_check (snd (fst (main Nd (prog :: input_file :: more) fs)))
                   input_file)
    ++ [Finished].
Proof.
  intros Hf Hw Hr.
  destruct (main_success Nd prog input_file more fs f content Hf Hw Hr)
    as [_ ->].
  cbn [fst snd]. split; [reflexivity|]. split.
  - unfold lint_scan.
    rewrite (read_text_written Nd _ input_file true true (drop_bom content));
      [reflexivity | | apply lookup_insert_eq | reflexivity].
    intros H. apply drop_bom_In in H. exact (read_text_no_cr _ _ _ Hr H).
  - eexists. reflexivity.
Qed.

Lemma main_lints_written_text_witness :
  lint_scan
    (snd (fst (main ascii_digit ["optimize_novel.py"; "a.txt"]%string
                 {[ "a.txt"%string :=
                      mkFile true true (Decoded [BOM; 97; SPACE; CR; LF; 98]) ]})))
    "a.txt" =
  inr (lint_issues (readlines (output_text ascii_digit
                                 (drop_bom [97; SPACE; LF; 98])))).
Proof.
  apply (main_lints_written_text ascii_digit "optimize_novel.py" "a.txt" []
           {[ "a.txt"%string :=
                mkFile true true (Decoded [BOM; 97; SPACE; CR; LF; 98]) ]}
           (mkFile true true (Decoded [BOM; 97; SPACE; CR; LF; 98]))
           [97; SPACE; LF; 98]);
    reflexivity.
Defined.

(** * Properties of the punctuation converter *)

Lemma count_char_app c a b :
  count_char c (a ++ b) = (count_char c a + count_char c b)%nat.
Proof. unfold count_char. rewrite List.filter_app, length_app. reflexivity. Qed.

Lemma count_char_absent c s : ~ In c s -> count_char c s = 0%nat.
Proof.
  unfold count_char. intros H. rewrite filter_none; [reflexivity|].
  intros x Hx. apply N.eqb_neq. intros ->. exact (H Hx).
Qed.

Lemma count_char_cons c d s :
  count_char c (d :: s) = ((if (d =? c)%N then 1 else 0) + count_char c s)%nat.
Proof. unfold count_char. simpl. destruct (d =? c); reflexivity. Qed.

Lemma starts_with_prefix old : forall s,
  Punct.starts_with old s = true -> exists rest, s = old ++ rest.
Proof.
  induction old as [|a old IH]; intros s; simpl.
  - intros _. exists s. reflexivity.
  - destruct s as [|b s']; [discriminate|].
    intros H. apply andb_true_iff in H. destruct H as [E H].
    apply N.eqb_eq in E. subst b. destruct (IH _ H) as [rest ->].
    exists rest. reflexivity.
Qed.

Lemma starts_with_head c tl s :
  ~ In c s -> Punct.starts_with (c :: tl) s = false.
Proof.
  destruct s as [|d r]; [reflexivity|]. simpl. intros H.
  destruct (c =? d) eqn:E; [|reflexivity].
  apply N.eqb_eq in E. exfalso. apply H. left. congruence.
Qed.

(** A key whose first character is not in the text does not occur in it. *)
Lemma count_absent_head c tl s :
  ~ In c s -> Punct.count (c :: tl) s = 0%nat.
Proof.
  unfold Punct.count. induction s as [|d r IH]; [reflexivity|].
  intros H. cbn [Punct.count_from].
  rewrite (starts_with_head c tl (d :: r) H).
  apply IH. intros H'. apply H. right. exact H'.
Qed.

Lemma count_single_zero c s : Punct.count [c] s = 0%nat -> ~ In c s.
Proof.
  unfold Punct.count. induction s as [|d r IH]; [intros _ []|].
  cbn [Punct.count_from Punct.starts_with]. destruct (c =? d) eqn:E; simpl.
  - discriminate.
  - intros H [H'|H']; [apply N.eqb_neq in E; congruence | exact (IH H H')].
Qed.

(** Replacing adds characters of the replacement only. *)
Lemma replace_from_In old new s : forall k x,
  In x (Punct.replace_from k old new s) -> In x new \/ In x s.
Proof.
  induction s as [|c r IH]; intros k x; [intros []|].
  cbn [Punct.replace_from]. destruct k as [|k].
  - destruct (Punct.starts_with old (c :: r)).
    + rewrite in_app_iff. intros [H|H]; [left; exact H|].
      destruct (IH _ _ H) as [H'|H']; [left | right; right]; exact H'.
    + intros [<-|H]; [right; left; reflexivity|].
      destruct (IH _ _ H) as [H'|H']; [left | right; right]; exact H'.
  - intros H. destruct (IH _ _ H) as [H'|H']; [left | right; right]; exact H'.
Qed.

(** Replacing a key of one character leaves no occurrence of it. *)
Lemma replace_single_gone c new s :
  ~ In c new -> ~ In c (Punct.replace [c] new s).
Proof.
  intros Hn. unfold Punct.replace. induction s as [|d r IH]; [intros []|].
  cbn [Punct.replace_from Punct.starts_with length Nat.sub].
  destruct (c =? d) eqn:E; simpl.
  - rewrite in_app_iff. intros [H|H]; [exact (Hn H) | exact (IH H)].
  - intros [H|H]; [apply N.eqb_neq in E; congruence | exact (IH H)].
Qed.

Lemma substitute_single_gone c new n acc :
  (n = 0%nat -> ~ In c (fst acc)) -> ~ In c new ->
  ~ In c (fst (Punct.substitute [c] new n acc)).
Proof.
  intros Hz Hn. unfold Punct.substitute.
  destruct (0 <? n)%nat eqn:E.
  - simpl. apply replace_single_gone. exact Hn.
  - apply Hz. apply Nat.ltb_ge in E. lia.
Qed.

Lemma substitute_keeps_absent old new n acc c :
  ~ In c (fst acc) -> ~ In c new ->
  ~ In c (fst (Punct.substitute old new n acc)).
Proof.
  intros Ha Hn. unfold Punct.substitute.
  destruct (0 <? n)%nat; [|exact Ha]. simpl. intros H.
  apply replace_from_In in H. tauto.
Qed.

Lemma fold_keeps_absent c pairs : forall acc,
  Forall (fun e => ~ In c (snd e)) pairs ->
  ~ In c (fst acc) ->
  ~ In c (fst (fold_left Punct.map_step pairs acc)).
Proof.
  induction pairs as [|e r IH]; intros acc F Ha; [exact Ha|].
  inversion F as [|? ? He Hr]; subst. simpl. apply IH; [exact Hr|].
  unfold Punct.map_step. apply substitute_keeps_absent; assumption.
Qed.

Lemma fold_gone c pairs : forall acc,
  Forall (fun e => ~ In c (snd e)) pairs ->
  (exists new, In ([c], new) pairs) ->
  ~ In c (fst (fold_left Punct.map_step pairs acc)).
Proof.
  induction pairs as [|e r IH]; intros acc F [new Hin]; [destruct Hin|].
  inversion F as [|? ? He Hr]; subst. simpl.
  destruct Hin as [->|Hin].
  - apply fold_keeps_absent; [exact Hr|].
    unfold Punct.map_step. simpl fst. simpl snd.
    apply substitute_single_gone; [apply count_single_zero | exact He].
  - apply IH; [exact Hr | eauto].
Qed.

(** The replacements hold none of the target characters. *)
Lemma targets_not_replacements c :
  In c Punct.targets ->
  Forall (fun e => ~ In c (snd e)) Punct.punctuation_map /\
  ~ In c [45; 45] /\ ~ In c [46; 46; 46] /\ ~ In c [60] /\ ~ In c [62].
Proof.
  intros H. simpl in H.
  repeat (destruct H as [<-|H];
          [split; [repeat constructor; simpl; intuition discriminate
                  | simpl; intuition discriminate]|]).
  destruct H.
Qed.

(** X22. The converted text holds none of the characters the converter
    targets: the ten full-width marks mapped to ASCII marks and the two title
    marks. *)
Theorem converted_text_has_no_target (content : pystr) (c : char) :
  In c Punct.targets -> ~ In c (fst (Punct.convert_content content)).
Proof.
  intros Hc.
  destruct (targets_not_replacements c Hc) as [Fm [Hd [He [Hl Hr]]]].
  unfold Punct.convert_content. cbv zeta.
  set (acc1 := fold_left Punct.map_step Punct.punctuation_map _).
  set (acc2 := Punct.substitute Punct.two_dashes _ _ acc1).
  set (acc3 := Punct.substitute Punct.two_ellipses _ _ acc2).
  set (acc4 := Punct.substitute Punct.left_title _ _ acc3).
  assert (Keep : ~ In c (fst acc1) -> ~ In c (fst acc3)).
  { intros H. apply substitute_keeps_absent; [|exact He].
    apply substitute_keeps_absent; [exact H | exact Hd]. }
  assert (Hmap : (exists new, In ([c], new) Punct.punctuation_map) ->
                 ~ In c (fst (Punct.substitute Punct.right_title [62]
                                (Punct.count Punct.right_title (fst acc3)) acc4))).
  { intros Hin. apply substitute_keeps_absent; [|exact Hr].
    apply substitute_keeps_absent; [|exact Hl].
    apply Keep. apply fold_gone; assumption. }
  simpl in Hc.
  repeat (destruct Hc as [<-|Hc];
          [try solve [apply Hmap; eexists; simpl; eauto 15] | ]).
  - (* the left title mark *)
    apply substitute_keeps_absent; [|exact Hr].
    apply (substitute_single_gone 12298 [60]);
      [apply count_single_zero | exact Hl].
  - (* the right title mark *)
    apply (substitute_single_gone 12299 [62]); [|exact Hr].
    intros Hz. apply substitute_keeps_absent; [|exact Hl].
    apply count_single_zero. exact Hz.
  - destruct Hc.
Qed.

Lemma converted_text_has_no_target_witness :
  ~ In 12299 (fst (Punct.convert_content [12298; 97; 12299; 65292])).
Proof.
  apply (converted_text_has_no_target [12298; 97; 12299; 65292] 12299).
  simpl. tauto.
Defined.

Lemma substitute_zero old new acc : Punct.substitute old new 0 acc = acc.
Proof. reflexivity. Qed.

Lemma fold_noop pairs : forall acc,
  Forall (fun e => exists c tl, fst e = c :: tl /\ ~ In c (fst acc)) pairs ->
  fold_left Punct.map_step pairs acc = acc.
Proof.
  induction pairs as [|e r IH]; intros acc F; [reflexivity|].
  inversion F as [|? ? [c [tl [E Hc]]] Hr]; subst. simpl.
  assert (S : Punct.map_step acc e = acc).
  { unfold Punct.map_step. rewrite E, (count_absent_head c tl _ Hc).
    reflexivity. }
  rewrite S. apply IH. exact Hr.
Qed.

(** X23. A text that holds none of the first characters of the keys and
    patterns comes back unchanged, with nothing recorded as converted. *)
Theorem nothing_to_convert (content : pystr) :
  (forall c, In c Punct.triggers -> ~ In c content) ->
  Punct.convert_content content =
  (content, Punct.mkStats (length content) [] 0).
Proof.
  intros H. unfold Punct.convert_content. cbv zeta.
  rewrite fold_noop.
  - simpl fst.
    unfold Punct.two_dashes, Punct.two_ellipses, Punct.left_title,
      Punct.right_title.
    rewrite (count_absent_head 8212 [8212] content) by (apply H; simpl; tauto).
    rewrite substitute_zero. simpl fst.
    rewrite (count_absent_head 8230 [8230] content) by (apply H; simpl; tauto).
    rewrite substitute_zero. simpl fst.
    rewrite (count_absent_head 12298 [] content) by (apply H; simpl; tauto).
    rewrite (count_absent_head 12299 [] content) by (apply H; simpl; tauto).
    reflexivity.
  - unfold Punct.punctuation_map, Punct.quote_lines_key.
    repeat (constructor;
            [eexists; eexists; split;
             [reflexivity | apply H; simpl; tauto]|]).
    constructor.
Qed.

Lemma nothing_to_convert_witness :
  Punct.convert_content [97; 8220; 98; 8221; 44; 39; LF] =
  ([97; 8220; 98; 8221; 44; 39; LF], Punct.mkStats 7 [] 0).
Proof.
  apply (nothing_to_convert [97; 8220; 98; 8221; 44; 39; LF]).
  intros c Hc Hin. simpl in Hc, Hin.
  repeat (destruct Hc as [<-|Hc]; [intuition discriminate|]).
  destruct Hc.
Defined.

(** Replacing neither adds nor removes a character that is in neither the
    key nor the replacement. *)
Lemma replace_from_count c old new : forall s k,
  old <> [] -> ~ In c old -> ~ In c new ->
  (forall x, In x (take k s) -> x <> c) ->
  count_char c (Punct.replace_from k old new s) = count_char c s.
Proof.
  intros s k Ho Hold Hnew. revert k.
  induction s as [|d r IH]; intros k Hk; [reflexivity|].
  cbn [Punct.replace_from]. destruct k as [|k].
  - destruct (Punct.starts_with old (d :: r)) eqn:E.
    + apply starts_with_prefix in E. destruct E as [rest E].
      destruct old as [|a old']; [congruence|].
      simpl in E. injection E as -> ->.
      rewrite count_char_app, (count_char_absent c new Hnew), count_char_cons.
      assert (Ha : (a =? c) = false).
      { apply N.eqb_neq. intros ->. apply Hold. left. reflexivity. }
      rewrite Ha. simpl. apply IH.
      intros x Hx. rewrite Nat.sub_0_r, take_app_length in Hx.
      intros ->. apply Hold. right. exact Hx.
    + rewrite !count_char_cons. f_equal. apply IH. intros x [].
  - rewrite count_char_cons.
    assert (Hd : (d =? c) = false).
    { apply N.eqb_neq. apply Hk. left. reflexivity. }
    rewrite Hd. simpl. apply IH. intros x Hx. apply Hk. right. exact Hx.
Qed.

Lemma substitute_count c old new n acc :
  old <> [] -> ~ In c old -> ~ In c new ->
  count_char c (fst (Punct.substitute old new n acc)) = count_char c (fst acc).
Proof.
  intros Ho Hold Hnew. unfold Punct.substitute.
  destruct (0 <? n)%nat; [|reflexivity]. simpl.
  apply replace_from_count; try assumption. intros x [].
Qed.

Lemma fold_count c pairs : forall acc,
  Forall (fun e => fst e <> [] /\ ~ In c (fst e) /\ ~ In c (snd e)) pairs ->
  count_char c (fst (fold_left Punct.map_step pairs acc)) =
  count_char c (fst acc).
Proof.
  induction pairs as [|e r IH]; intros acc F; [reflexivity|].
  inversion F as [|? ? [H1 [H2 H3]] Hr]; subst. simpl.
  rewrite (IH _ Hr). unfold Punct.map_step.
  apply substitute_count; assumption.
Qed.

(** X24. A character that occurs in no key, no pattern and no replacement is
    neither added nor removed: the converted text holds it as often as the
    input.  The curly quotation marks are such characters. *)
Theorem untouched_characters_kept (content : pystr) (c : char) :
  ~ In c Punct.touched ->
  count_char c (fst (Punct.convert_content content)) = count_char c content.
Proof.
  intros H. unfold Punct.touched in H. rewrite !in_app_iff in H.
  unfold Punct.convert_content. cbv zeta.
  rewrite !substitute_count; try discriminate; try tauto.
  rewrite fold_count; [reflexivity|].
  assert (Hk : forall e, In e Punct.punctuation_map -> ~ In c (fst e)).
  { intros e He Hc. apply H. left. apply in_concat. exists (fst e).
    split; [apply in_map; exact He | exact Hc]. }
  assert (Hv : forall e, In e Punct.punctuation_map -> ~ In c (snd e)).
  { intros e He Hc. apply H. right. left. apply in_concat. exists (snd e).
    split; [apply in_map; exact He | exact Hc]. }
  apply List.Forall_forall. intros e He.
  split; [|split; [exact (Hk e He) | exact (Hv e He)]].
  simpl in He.
  repeat (destruct He as [<-|He]; [discriminate|]). destruct He.
Qed.

Lemma untouched_characters_kept_witness :
  count_char 8220 (fst (Punct.convert_content [8220; 97; 65292; 8220; 8221])) =
  count_char 8220 [8220; 97; 65292; 8220; 8221].
Proof.
  apply (untouched_characters_kept [8220; 97; 65292; 8220; 8221] 8220).
  vm_compute. intuition discriminate.
Defined.

(** The three ways [convert_punctuation] ends. *)
Lemma convert_punctuation_cases (fs : gmap string file) input_file output_file :
  (exists e, read_text fs input_file = inl e /\
     Punct.convert_punctuation fs input_file output_file =
       (false, fs, [Punct.ReadFailed e]))
  \/
  (exists content e, read_text fs input_file = inr content /\
     Punct.convert_punctuation fs input_file output_file =
       (false, fs, [Punct.WriteFailed e]))
  \/
  (exists content rd, read_text fs input_file = inr content /\
     Punct.convert_punctuation fs input_file output_file =
       (true,
        <[default input_file output_file :=
            mkFile rd true
              (Decoded (fst (Punct.convert_content (drop_bom content))))]> fs,
        [Punct.Converted (default input_file output_file)
           (snd (Punct.convert_content (drop_bom content)))])).
Proof.
  unfold Punct.convert_punctuation.
  destruct (read_text fs input_file) as [e|content]; [left; eauto|].
  right. destruct (Punct.convert_content (drop_bom content)) as [text s] eqn:Ec.
  destruct (write_text _ _ _) as [e|fs'] eqn:W; [left; eauto|].
  right. apply write_text_spec in W. destruct W as [rd [-> _]].
  exists content, rd. split; [reflexivity|]. rewrite Ec. reflexivity.
Qed.


(** X25. [convert_punctuation] on the file system: when the read fails it
    prints the failure, returns [False] and writes nothing; and when it
    returns [True] it has read the input file and the output path holds the
    converted form of the text it read. *)
Theorem convert_punctuation_effect (fs : gmap string file)
    (input_file : string) (output_file : option string) :
  (forall e, read_text fs input_file = inl e ->
     Punct.convert_punctuation fs input_file output_file =
       (false, fs, [Punct.ReadFailed e])) /\
  (fst (fst (Punct.convert_punctuation fs input_file output_file)) = true ->
   exists content rd,
     read_text fs input_file = inr content /\
     snd (fst (Punct.convert_punctuation fs input_file output_file))
       !! default input_file output_file =
     Some (mkFile rd true
             (Decoded (fst (Punct.convert_content (drop_bom content)))))).
Proof.
  split.
  - intros e He. unfold Punct.convert_punctuation. rewrite He. reflexivity.
  - intros Hok.
    destruct (convert_punctuation_cases fs input_file output_file)
      as [[e [_ E]]|[[c [e [_ E]]]|[c [rd [R E]]]]];
      rewrite E in *; cbn [fst snd] in Hok; try discriminate.
    exists c, rd. split; [exact R|]. cbn [fst snd]. apply lookup_insert_eq.
Qed.

Lemma convert_punctuation_effect_witness :
  Punct.convert_punctuation
    {[ "a.txt"%string := mkFile true true Undecodable ]} "a.txt" None =
  (false, {[ "a.txt"%string := mkFile true true Undecodable ]},
   [Punct.ReadFailed UnicodeDecodeError])
  /\
  exists content rd,
    read_text {[ "b.txt"%string := mkFile true true (Decoded [97; 65292]) ]}
      "b.txt" = inr content /\
    snd (fst (Punct.convert_punctuation
                {[ "b.txt"%string := mkFile true true (Decoded [97; 65292]) ]}
                "b.txt" None)) !! "b.txt"%string =
    Some (mkFile rd true
            (Decoded (fst (Punct.convert_content (drop_bom content))))).
Proof.
  split.
  - apply (proj1 (convert_punctuation_effect
                    {[ "a.txt"%string := mkFile true true Undecodable ]}
                    "a.txt" None)).
    reflexivity.
  - apply (proj2 (convert_punctuation_effect
                    {[ "b.txt"%string :=
                         mkFile true true (Decoded [97; 65292]) ]}
                    "b.txt" None)).
    reflexivity.
Defined.




(** * The reported line count *)

Lemma count_lf_utf_8_sig text :
  count_char LF (universal_newlines (utf_8_sig text)) =
  count_char LF (universal_newlines text).
Proof.
  destruct text as [|c r]; [reflexivity|]. simpl.
  destruct (c =? BOM) eqn:E; [|reflexivity].
  apply N.eqb_eq in E. subst c. reflexivity.
Qed.

(** C9, as amended. For every input file, the [total_lines] that a
    successful run reports is the number of line feeds of the text as read
    in text mode plus one: the file's text after the translation that turns
    every carriage return, with or without a line feed after it, into one
    line feed; a byte-order mark at the start does not count. *)
Theorem total_lines_reported (Nd : char -> bool) (fs fs' : gmap string file)
    (input_file : string) (output_file : option string) (f : file)
    (text : pystr) (reported : string) (s : stats) (n : nat) :
  fs !! input_file = Some f -> data f = Decoded text ->
  optimize_novel Nd fs input_file output_file =
    (true, fs', [Optimized reported s n]) ->
  total_lines s = (count_char LF (universal_newlines text) + 1)%nat.
Proof.
  intros Hf Hd Ho.
  destruct (optimize_novel_cases Nd fs input_file output_file)
    as [[e [_ E]]|[[c [e [_ [_ E]]]]|[c [fs1 [R [_ E]]]]]];
    rewrite E in Ho; try discriminate.
  injection Ho as _ _ <- _.
  rewrite total_lines_counts_segments.
  unfold read_text in R. rewrite Hf, Hd in R.
  destruct (negb (readable f)); [discriminate|].
  injection R as <-. rewrite count_lf_utf_8_sig. reflexivity.
Qed.

Lemma total_lines_reported_witness :
  exists fs' reported s n,
    optimize_novel ascii_digit
      {[ "a.txt"%string :=
           mkFile true true (Decoded [BOM; 97; CR; LF; 98; CR; 99; LF]) ]}
      "a.txt" None = (true, fs', [Optimized reported s n]) /\
    total_lines s = 4%nat.
Proof.
  eexists. eexists. eexists. eexists. split; [reflexivity|].
  eapply (total_lines_reported ascii_digit
           {[ "a.txt"%string :=
                mkFile true true (Decoded [BOM; 97; CR; LF; 98; CR; 99; LF]) ]}
           _ "a.txt" None
           (mkFile true true (Decoded [BOM; 97; CR; LF; 98; CR; 99; LF]))
           [BOM; 97; CR; LF; 98; CR; 99; LF] "a.txt"); reflexivity.
Defined.

(** C9 as stated fails: a file whose two lines are separated by a lone
    carriage return holds no line feed, and the run reports two lines. *)
Lemma total_lines_raw_counterexample :
  ~ total_lines_counts_raw_line_feeds ascii_digit.
Proof.
  intros H.
  specialize (H {[ "a.txt"%string := mkFile true true (Decoded [97; CR; 98]) ]}).
  specialize (fun fs' r s n =>
    H fs' "a.txt"%string None (mkFile true true (Decoded [97; CR; 98]))
      [97; CR; 98] r s n eq_refl eq_refl).
  eassert (E : _) by (eapply H; reflexivity).
  vm_compute in E. discriminate E.
Qed.
